(** * Document Genie (streamlit_App.py): a shallow embedding and its properties

    The application is glue code around third-party libraries: PyPDF2 for
    text extraction, langchain's recursive character splitter, a FAISS
    vector store, Google's hosted embedding and chat models and the
    Streamlit user interface.  The functions of [streamlit_App.py] are
    embedded one by one, with the names they have in the source.  What the
    source delegates is represented in two ways:

    - deterministic library code the source configures (the text splitter,
      the prompt template, the "stuff" question-answering chain) is modelled
      by executable definitions in the modules [Langchain],
      [PromptTemplate] and [StuffChain], over the Python operations of
      [Py];
    - hosted services and opaque library internals (the PDF parser, the
      embedding and chat endpoints, the index loader and the nearest
      neighbour search) are oracles gathered in the record [World]; a
      call that can fail returns a [Result].

    Effects are explicit: a state-and-exception monad [M] threads the
    persistent storage and the trace of observable events. *)

From Stdlib Require Import ZArith Lia Ascii String List Bool QArith.
From stdpp Require Import base option list strings gmap.

Local Open Scope Z_scope.

(* ================================================================== *)
(** ** Python values used by the program *)
(* ================================================================== *)

Module Py.

(** A Python [str] is represented by its UTF-8 encoding: a character
    (a code point) is a lead byte followed by its continuation bytes,
    the bytes from 128 to 191. *)
Definition is_continuation (b : ascii) : bool :=
  let n := N_of_ascii b in ((128 <=? n) && (n <? 192))%N.

(** The number of characters of a string: the bytes that start one. *)
Fixpoint count_chars (s : string) : nat :=
  match s with
  | EmptyString => O
  | String b rest =>
      if is_continuation b then count_chars rest else S (count_chars rest)
  end.

(** [len(s)] on a string, in characters. *)
Definition len (s : string) : Z := Z.of_nat (count_chars s).

(** Truthiness of a string ([if s:]): non-empty. *)
Definition truthy (s : string) : bool :=
  match s with EmptyString => false | String _ _ => true end.

(** Truthiness of a list. *)
Definition nonempty {A} (l : list A) : bool :=
  match l with [] => false | _ :: _ => true end.

(** [sep.join(parts)] *)
Fixpoint join (sep : string) (parts : list string) : string :=
  match parts with
  | [] => EmptyString
  | [p] => p
  | p :: rest => p +:+ sep +:+ join sep rest
  end.

(** [list(s)]: the characters of [s], each as a one-character string.
    A byte starts a new character unless the bytes after it start with
    a continuation byte, which then belongs to it. *)
Fixpoint chars (s : string) : list string :=
  match s with
  | EmptyString => []
  | String b rest =>
      match chars rest with
      | String b' c :: cs =>
          if is_continuation b' then String b (String b' c) :: cs
          else String b EmptyString :: String b' c :: cs
      | cs => String b EmptyString :: cs
      end
  end.

(** The code point of a character, decoded from its bytes. *)
Definition code_point (c : string) : N :=
  match c with
  | EmptyString => 0
  | String b rest =>
      let n := N_of_ascii b in
      if (n <? 128)%N then n
      else
        fold_left (fun acc b' => (acc * 64 + N_of_ascii b' mod 64)%N)
          (list_ascii_of_string rest)
          (if (n <? 224)%N then (n mod 32)%N
           else if (n <? 240)%N then (n mod 16)%N
           else (n mod 8)%N)
  end.

(** [c.isspace()] for a character: the white space of Unicode, as
    [str.strip] understands it. *)
Definition isspace (c : string) : bool :=
  let n := code_point c in
  ((9 <=? n) && (n <=? 13) || (28 <=? n) && (n <=? 32)
   || (n =? 0x85) || (n =? 0xA0) || (n =? 0x1680)
   || (0x2000 <=? n) && (n <=? 0x200A)
   || (n =? 0x2028) || (n =? 0x2029) || (n =? 0x202F)
   || (n =? 0x205F) || (n =? 0x3000))%N.

(** Dropping the white space in front of a list of characters, and at
    its end. *)
Fixpoint lstrip_chars (cs : list string) : list string :=
  match cs with
  | [] => []
  | c :: rest => if isspace c then lstrip_chars rest else cs
  end.

Fixpoint rstrip_chars (cs : list string) : list string :=
  match cs with
  | [] => []
  | c :: rest =>
      match rstrip_chars rest with
      | [] => if isspace c then [] else [c]
      | kept => c :: kept
      end
  end.

(** [s.strip()] *)
Definition strip (s : string) : string :=
  fold_right String.append EmptyString
    (rstrip_chars (lstrip_chars (chars s))).

(** [sub in s] for strings; also [re.search(re.escape(sub), s)].  In
    UTF-8 no character's bytes occur inside another character, so a
    search by bytes finds what the search by characters finds. *)
Fixpoint contains (sub s : string) : bool :=
  String.prefix sub s ||
  match s with
  | EmptyString => false
  | String _ rest => contains sub rest
  end.

(** Exception classes the program distinguishes.  [except ValueError]
    also catches the subclasses of [ValueError]. *)
Inductive ExnClass :=
| FileNotFoundError
| ValueError
| ValueErrorSubclass (name : string)
| OtherException (name : string).

Record Exn := mkExn { exn_class : ExnClass; exn_str : string }.

Definition is_FileNotFoundError (e : Exn) : bool :=
  match exn_class e with FileNotFoundError => true | _ => false end.

Definition is_ValueError (e : Exn) : bool :=
  match exn_class e with
  | ValueError | ValueErrorSubclass _ => true
  | _ => false
  end.

(** The outcome of a call: an exception or a value. *)
Definition Result (A : Type) : Type := Exn + A.

End Py.

Import Py.

(* ================================================================== *)
(** ** langchain.text_splitter.RecursiveCharacterTextSplitter *)
(* ================================================================== *)

(** Model of the third-party splitter the source instantiates with
    [chunk_size] and [chunk_overlap] only, so with the defaults
    [separators = ["\n\n", "\n", " ", ""]], [keep_separator = True],
    [is_separator_regex = False], [length_function = len] and
    [strip_whitespace = True]. *)
Module Langchain.

Definition nl : string := String "010"%char EmptyString.

Record TextSplitter := mkTextSplitter {
  _chunk_size : Z;
  _chunk_overlap : Z;
  _separators : list string
}.

Definition RecursiveCharacterTextSplitter (chunk_size chunk_overlap : Z)
  : TextSplitter :=
  {| _chunk_size := chunk_size;
     _chunk_overlap := chunk_overlap;
     _separators := [nl +:+ nl; nl; " "; ""] |}.

(** [TextSplitter._join_docs]: join, strip, and drop an empty result. *)
Definition _join_docs (docs : list string) (separator : string)
  : option string :=
  let text := strip (join separator docs) in
  if truthy text then Some text else None.

(** The inner [while] of [_merge_splits]: pop pieces off the front of
    [current_doc] while the running total exceeds the overlap, or the
    next piece would not fit.  [total] is the summed length of
    [current_doc], so on the empty list the loop condition is false; the
    model stops there. *)
Fixpoint pop_front (chunk_size chunk_overlap separator_len _len : Z)
    (current_doc : list string) (total : Z) : list string * Z :=
  match current_doc with
  | [] => ([], total)
  | d0 :: rest =>
      if (chunk_overlap <? total)
         || ((chunk_size <? total + _len + separator_len) && (0 <? total))
      then pop_front chunk_size chunk_overlap separator_len _len rest
             (total - (len d0 + (if Py.nonempty rest then separator_len else 0)))
      else (current_doc, total)
  end.

(** One iteration of the [for d in splits] loop of [_merge_splits]. *)
Definition merge_step (chunk_size chunk_overlap : Z) (separator : string)
    (st : list string * list string * Z) (d : string)
  : list string * list string * Z :=
  let '(docs, current_doc, total) := st in
  let separator_len := len separator in
  let _len := len d in
  let '(docs, current_doc, total) :=
    if (chunk_size
          <? total + _len
             + (if Py.nonempty current_doc then separator_len else 0))
       && Py.nonempty current_doc
    then
      let docs :=
        match _join_docs current_doc separator with
        | Some doc => docs ++ [doc]
        | None => docs
        end in
      let '(current_doc, total) :=
        pop_front chunk_size chunk_overlap separator_len _len
          current_doc total in
      (docs, current_doc, total)
    else (docs, current_doc, total) in
  (docs, current_doc ++ [d],
   total + _len + (if Py.nonempty current_doc then separator_len else 0)).

(** [TextSplitter._merge_splits] *)
Definition _merge_splits (chunk_size chunk_overlap : Z)
    (splits : list string) (separator : string) : list string :=
  let '(docs, current_doc, _) :=
    fold_left (merge_step chunk_size chunk_overlap separator) splits
      ([], [], 0) in
  match _join_docs current_doc separator with
  | Some doc => docs ++ [doc]
  | None => docs
  end.

(** [str.split(sep)] for a non-empty literal [sep]: leftmost
    non-overlapping occurrences.  [skip] counts the characters of a
    matched separator still to be passed over, [acc] holds the current
    piece reversed. *)
Fixpoint split_literal (sep : string) (skip : nat) (acc : string)
    (text : string) : list string :=
  match text with
  | EmptyString => [String.rev acc]
  | String c rest =>
      match skip with
      | S k => split_literal sep k acc rest
      | O =>
          if String.prefix sep text
          then String.rev acc
               :: split_literal sep (Nat.pred (String.length sep))
                    EmptyString rest
          else split_literal sep O (String c acc) rest
      end
  end.

(** [_split_text_with_regex(text, re.escape(separator), keep_separator=True)]:
    the pieces between the separators, each but the first with the
    separator kept in front, empty pieces dropped. *)
Definition _split_text_with_regex (text separator : string) : list string :=
  let splits :=
    if truthy separator then
      match split_literal separator O EmptyString text with
      | [] => []
      | first :: others => first :: map (String.append separator) others
      end
    else chars text in
  List.filter truthy splits.

(** The loop of [_split_text] that picks the separator: the first
    separator that is empty or occurs in the text, with the separators
    after it; the last separator and nothing when none occurs. *)
Fixpoint choose_separator (separators : list string) (text : string)
  : string * list string :=
  match separators with
  | [] => (EmptyString, [])
  | _s :: rest =>
      if negb (truthy _s) then (_s, [])
      else if contains _s text then (_s, rest)
      else match rest with
           | [] => (_s, [])
           | _ => choose_separator rest text
           end
  end.

(** [final_chunks.extend(self._merge_splits(_good_splits, _separator))]
    when [_good_splits] is not empty; [_separator] is empty because the
    separators are kept in the pieces. *)
Definition flush (chunk_size chunk_overlap : Z)
    (final_chunks _good_splits : list string) : list string :=
  if Py.nonempty _good_splits
  then final_chunks
       ++ _merge_splits chunk_size chunk_overlap _good_splits EmptyString
  else final_chunks.

(** One iteration of the [for s in splits] loop of [_split_text]: a
    piece shorter than the chunk size joins the run to merge; a longer
    one ends the run and is handed to [recurse] (the splitter on the
    remaining separators), or kept whole when no separator remains. *)
Definition pieces_step (chunk_size chunk_overlap : Z)
    (recurse : option (string -> list string))
    (st : list string * list string) (s : string)
  : list string * list string :=
  let '(final_chunks, _good_splits) := st in
  if len s <? chunk_size
  then (final_chunks, _good_splits ++ [s])
  else
    let final_chunks :=
      flush chunk_size chunk_overlap final_chunks _good_splits in
    match recurse with
    | None => (final_chunks ++ [s], [])
    | Some other_info => (final_chunks ++ other_info s, [])
    end.

(** The second half of [_split_text]: split on the chosen separator and
    run the loop over the pieces. *)
Definition split_pieces (chunk_size chunk_overlap : Z)
    (separator : string) (recurse : option (string -> list string))
    (text : string) : list string :=
  let splits := _split_text_with_regex text separator in
  let '(final_chunks, _good_splits) :=
    fold_left (pieces_step chunk_size chunk_overlap recurse) splits
      ([], []) in
  flush chunk_size chunk_overlap final_chunks _good_splits.

(** [RecursiveCharacterTextSplitter._split_text], by recursion on the
    list of separators still available. *)
Fixpoint _split_text (chunk_size chunk_overlap : Z)
    (separators : list string) (text : string) {struct separators}
  : list string :=
  match separators with
  | [] =>
      (* not reached: the constructor replaces an empty list of
         separators by the default one, and the recursion never passes
         an empty list *)
      split_pieces chunk_size chunk_overlap EmptyString None text
  | _s :: rest =>
      if negb (truthy _s)
      then split_pieces chunk_size chunk_overlap _s None text
      else if contains _s text
      then split_pieces chunk_size chunk_overlap _s
             (match rest with
              | [] => None
              | _ => Some (_split_text chunk_size chunk_overlap rest)
              end) text
      else match rest with
           | [] => split_pieces chunk_size chunk_overlap _s None text
           | _ => _split_text chunk_size chunk_overlap rest text
           end
  end.

(** [RecursiveCharacterTextSplitter.split_text] *)
Definition split_text (self : TextSplitter) (text : string) : list string :=
  _split_text (_chunk_size self) (_chunk_overlap self) (_separators self)
    text.

End Langchain.

(* ================================================================== *)
(** ** The outside world *)
(* ================================================================== *)

(** An embedding vector; the program only moves vectors around. *)
Definition Vector : Type := list Z.

(** PyPDF2.  An uploaded file is represented by what the parser makes of
    it: [PdfReader(pdf)] raises or gives the pages, and on each page
    [extract_text()] raises, returns [None] or returns a string. *)
Record PageObject := mkPage { extract_text : Result (option string) }.

Record UploadedFile := mkUpload { PdfReader : Result (list PageObject) }.

(** What [save_local] leaves under a path: the vectors of the index and
    the texts of the document store. *)
Record IndexData := mkIndexData {
  stored_index : list Vector;
  stored_docstore : list string
}.

(** The hosted services and the opaque parts of the FAISS library. *)
Record World := mkWorld {
  (** the embedding endpoint, per model name and API key *)
  api_embed_documents : string -> string -> list string -> Result (list Vector);
  api_embed_query : string -> string -> string -> Result Vector;
  (** the chat-completion endpoint: model, temperature, key, prompt *)
  api_generate : string -> Q -> string -> string -> Result string;
  (** building the in-memory index from the vectors *)
  faiss_new_index : list Vector -> Result (list Vector);
  (** reading a persisted index back from storage *)
  faiss_read : gmap string IndexData -> string -> Result IndexData;
  (** positions of the nearest vectors, best first *)
  faiss_search : list Vector -> Vector -> list nat
}.

(** Observable events, in the order they happen. *)
Inductive Event :=
| logger_info (msg : string)
| logger_error (msg : string)
| st_header (body : string)
| st_title (body : string)
| st_spinner (body : string)
| st_error (body : string)
| st_success (body : string)
| st_write (args : list string)
| call_embed_documents (model key : string) (texts : list string)
| call_embed_query (model key text : string)
| call_generate (model : string) (temperature : Q) (key prompt : string)
| call_load_local (folder_path : string)
| call_save_local (folder_path : string).

(** Persistent storage and the trace of events so far. *)
Record State := mkState {
  disk : gmap string IndexData;
  trace : list Event
}.

(* ================================================================== *)
(** ** The monad of the program: state and exceptions *)
(* ================================================================== *)

Definition M (A : Type) : Type := State -> Result A * State.

Definition ret {A} (a : A) : M A := fun s => (inr a, s).

Definition bind {A B} (m : M A) (k : A -> M B) : M B :=
  fun s =>
    match m s with
    | (inl e, s') => (inl e, s')
    | (inr a, s') => k a s'
    end.

Definition raise {A} (e : Exn) : M A := fun s => (inl e, s).

(** [try: m] with the exception, if any, handed to the caller. *)
Definition catch {A} (m : M A) : M (Result A) :=
  fun s => let '(r, s') := m s in (inr r, s').

Definition lift {A} (r : Result A) : M A := fun s => (r, s).

Definition emit (ev : Event) : M unit :=
  fun s => (inr tt, {| disk := disk s; trace := trace s ++ [ev] |}).

Definition read_disk : M (gmap string IndexData) := fun s => (inr (disk s), s).

Definition write_disk (path : string) (d : IndexData) : M unit :=
  fun s => (inr tt, {| disk := <[path := d]> (disk s); trace := trace s |}).

#[global] Instance M_ret : MRet M := @ret.
#[global] Instance M_bind : MBind M := fun A B k m => bind m k.

(** Exceptions alone, for the code that has no other effect. *)
#[global] Instance Result_ret : MRet Result := fun A a => inr a.
#[global] Instance Result_bind : MBind Result :=
  fun A B k r => match r with inl e => inl e | inr a => k a end.

(** A [for] loop with an accumulator, in a monad. *)
Fixpoint for_each {F : Type -> Type} `{MRet F, MBind F} {A B}
    (l : list A) (acc : B) (body : B -> A -> F B) : F B :=
  match l with
  | [] => mret acc
  | x :: rest => acc' ← body acc x; for_each rest acc' body
  end.

(* ================================================================== *)
(** ** Library objects the program builds *)
(* ================================================================== *)

(** [langchain_google_genai.GoogleGenerativeAIEmbeddings] *)
Record GoogleGenerativeAIEmbeddings := mkEmbeddings {
  emb_model : string;
  emb_google_api_key : string
}.

Definition embed_documents (W : World) (self : GoogleGenerativeAIEmbeddings)
    (texts : list string) : M (list Vector) :=
  emit (call_embed_documents (emb_model self) (emb_google_api_key self) texts);;
  lift (api_embed_documents W (emb_model self) (emb_google_api_key self) texts).

Definition embed_query (W : World) (self : GoogleGenerativeAIEmbeddings)
    (text : string) : M Vector :=
  emit (call_embed_query (emb_model self) (emb_google_api_key self) text);;
  lift (api_embed_query W (emb_model self) (emb_google_api_key self) text).

(** [langchain_google_genai.ChatGoogleGenerativeAI] *)
Record ChatGoogleGenerativeAI := mkChat {
  chat_model : string;
  chat_temperature : Q;
  chat_google_api_key : string
}.

Definition generate (W : World) (self : ChatGoogleGenerativeAI)
    (prompt : string) : M string :=
  emit (call_generate (chat_model self) (chat_temperature self)
          (chat_google_api_key self) prompt);;
  lift (api_generate W (chat_model self) (chat_temperature self)
          (chat_google_api_key self) prompt).

(** [langchain.vectorstores.FAISS]: the in-memory vector store. *)
Module FAISS.

Record t := mk {
  embedding_function : GoogleGenerativeAIEmbeddings;
  index : list Vector;
  docstore : list string
}.

(** [FAISS.from_texts(texts, embedding=...)]: embed every text through
    the hosted API, then build the index. *)
Definition from_texts (W : World) (texts : list string)
    (embedding : GoogleGenerativeAIEmbeddings) : M t :=
  embeddings ← embed_documents W embedding texts;
  index ← lift (faiss_new_index W embeddings);
  mret {| embedding_function := embedding; index := index;
          docstore := texts |}.

(** [vector_store.save_local(folder_path)]: the index and the document
    store go to storage; the embedding client does not. *)
Definition save_local (self : t) (folder_path : string) : M unit :=
  emit (call_save_local folder_path);;
  write_disk folder_path
    {| stored_index := index self; stored_docstore := docstore self |}.

(** [FAISS.load_local(folder_path, embeddings,
    allow_dangerous_deserialization=...)] *)
Definition load_local (W : World) (folder_path : string)
    (embeddings : GoogleGenerativeAIEmbeddings)
    (allow_dangerous_deserialization : bool) : M t :=
  if negb allow_dangerous_deserialization
  then raise (mkExn ValueError
                "The de-serialization relies loading a pickle file.")
  else
    emit (call_load_local folder_path);;
    files ← read_disk;
    data ← lift (faiss_read W files folder_path);
    mret {| embedding_function := embeddings;
            index := stored_index data;
            docstore := stored_docstore data |}.

(** [new_db.similarity_search(query)], with the default [k = 4]: the
    documents at the nearest positions. *)
Definition similarity_search (W : World) (self : t) (query : string)
  : M (list string) :=
  embedding ← embed_query W (embedding_function self) query;
  let positions := take 4 (faiss_search W (index self) embedding) in
  mret (omap (fun i => docstore self !! i) positions).

End FAISS.

(** [langchain.prompts.PromptTemplate], formatted as an f-string. *)
Module PromptTemplate.

Record t := mk {
  template : string;
  input_variables : list string
}.

Fixpoint kwarg (name : string) (kwargs : list (string * string))
  : option string :=
  match kwargs with
  | [] => None
  | (k, v) :: rest => if String.eqb k name then Some v else kwarg name rest
  end.

(** [template.format] with keyword arguments: every [{name}] is replaced by the value
    of [name].  [field] holds, reversed, the name being read after an
    opening brace.  Doubled braces do not occur in the program's
    template and are not modelled. *)
Fixpoint format_go (kwargs : list (string * string)) (field : option string)
    (t : string) : Result string :=
  match t with
  | EmptyString =>
      match field with
      | None => inr EmptyString
      | Some _ =>
          inl (mkExn ValueError "expected '}' before end of string")
      end
  | String c rest =>
      match field with
      | None =>
          if Ascii.eqb c "{" then format_go kwargs (Some EmptyString) rest
          else if Ascii.eqb c "}"
          then inl (mkExn ValueError
                      "Single '}' encountered in format string")
          else r ← format_go kwargs None rest; mret (String c r)
      | Some acc =>
          if Ascii.eqb c "}" then
            match kwarg (String.rev acc) kwargs with
            | Some v => r ← format_go kwargs None rest; mret (v +:+ r)
            | None => inl (mkExn (OtherException "KeyError") (String.rev acc))
            end
          else format_go kwargs (Some (String c acc)) rest
      end
  end.

Definition format (self : t) (kwargs : list (string * string))
  : Result string :=
  format_go kwargs None (template self).

(** The names between braces in a template, in order of occurrence. *)
Fixpoint fields_go (field : option string) (t : string) : list string :=
  match t with
  | EmptyString => []
  | String c rest =>
      match field with
      | None =>
          if Ascii.eqb c "{" then fields_go (Some EmptyString) rest
          else fields_go None rest
      | Some acc =>
          if Ascii.eqb c "}" then String.rev acc :: fields_go None rest
          else fields_go (Some (String c acc)) rest
      end
  end.

Definition fields (self : t) : list string := fields_go None (template self).

End PromptTemplate.

(** The chain [load_qa_chain(model, chain_type="stuff", prompt=prompt)]
    returns: all documents are put into one prompt. *)
Module StuffChain.

Record t := mk {
  llm : ChatGoogleGenerativeAI;
  prompt : PromptTemplate.t;
  document_variable_name : string;
  document_separator : string
}.

Definition load_qa_chain (model : ChatGoogleGenerativeAI)
    (prompt : PromptTemplate.t) : t :=
  {| llm := model; prompt := prompt;
     document_variable_name := "context";
     document_separator := Langchain.nl +:+ Langchain.nl |}.

(** [chain({"input_documents": docs, "question": q},
    return_only_outputs=True)]: the documents, joined, fill the document
    variable; the formatted prompt goes to the chat model; the reply
    comes back under ["output_text"]. *)
Definition call (W : World) (self : t) (input_documents : list string)
    (question : string) : M (gmap string string) :=
  let context := join (document_separator self) input_documents in
  text ← lift (PromptTemplate.format (prompt self)
                 [(document_variable_name self, context);
                  ("question", question)]);
  output ← generate W (llm self) text;
  mret ({["output_text" := output]} : gmap string string).

End StuffChain.

(* ================================================================== *)
(** ** streamlit_App.py *)
(* ================================================================== *)

Definition dquote : string := String "034"%char EmptyString.

(** What the browser form holds when the script runs: the credential
    field, the question field, the uploaded files and whether the
    process button was pressed. *)
Record Form := mkForm {
  api_key : string;
  user_question : string;
  pdf_docs : list UploadedFile;
  process_button : bool
}.

(** [get_pdf_text]: no exception is handled here. *)
Definition get_pdf_text (pdf_docs : list UploadedFile) : Result string :=
  for_each pdf_docs EmptyString (fun text pdf =>
    pages ← PdfReader pdf;
    for_each pages text (fun text page =>
      extracted ← extract_text page;
      mret (text +:+ default EmptyString extracted))).

Definition get_text_chunks (text : string) : list string :=
  let text_splitter := Langchain.RecursiveCharacterTextSplitter 10000 1000 in
  let chunks := Langchain.split_text text_splitter text in
  chunks.

Definition get_vector_store (W : World) (text_chunks : list string)
    (api_key : string) : M unit :=
  let embeddings :=
    {| emb_model := "models/embedding-001";
       emb_google_api_key := api_key |} in
  vector_store ← FAISS.from_texts W text_chunks embeddings;
  FAISS.save_local vector_store "faiss_index".

Definition prompt_template : string :=
  Langchain.nl
  +:+ "    Answer the question as detailed as possible from the provided context. If the answer is not in"
  +:+ Langchain.nl
  +:+ "    the provided context, say, " +:+ dquote
  +:+ "answer is not available in the context." +:+ dquote
  +:+ " Do not provide a wrong answer." +:+ Langchain.nl +:+ Langchain.nl
  +:+ Langchain.nl
  +:+ "    Context:" +:+ Langchain.nl +:+ " {context}" +:+ Langchain.nl
  +:+ Langchain.nl
  +:+ "    Question:" +:+ Langchain.nl +:+ " {question}" +:+ Langchain.nl
  +:+ Langchain.nl
  +:+ Langchain.nl
  +:+ "    Answer:" +:+ Langchain.nl
  +:+ "    ".

Definition get_conversational_chain (api_key : string) : StuffChain.t :=
  let model :=
    {| chat_model := "gemini-pro"; chat_temperature := 3 # 10;
       chat_google_api_key := api_key |} in
  let prompt :=
    {| PromptTemplate.template := prompt_template;
       PromptTemplate.input_variables := ["context"; "question"] |} in
  let chain := StuffChain.load_qa_chain model prompt in
  chain.

Definition user_input (W : World) (user_question api_key : string) : M unit :=
  let embeddings :=
    {| emb_model := "models/embedding-001";
       emb_google_api_key := api_key |} in
  loaded ← catch
    (emit (logger_info "Loading vector store...");;
     new_db ← FAISS.load_local W "faiss_index" embeddings true;
     emit (logger_info "Vector store loaded successfully.");;
     mret new_db);
  match loaded with
  | inl e =>
      if is_FileNotFoundError e then
        emit (st_error
          "Vector store file not found. Please upload and process your PDF files.")
      else if is_ValueError e then
        (emit (st_error ("Error loading vector store: " +:+ exn_str e));;
         emit (logger_error ("Error loading vector store: " +:+ exn_str e)))
      else raise e
  | inr new_db =>
      docs ← FAISS.similarity_search W new_db user_question;
      let chain := get_conversational_chain api_key in
      response ← StuffChain.call W chain docs user_question;
      emit (st_write
              ["Reply: ";
               default "No response generated." (response !! "output_text")])
  end.

(** The body of [with st.spinner("Processing..."):] in [main]. *)
Definition process (W : World) (pdf_docs : list UploadedFile)
    (api_key : string) : M unit :=
  emit (st_spinner "Processing...");;
  raw_text ← lift (get_pdf_text pdf_docs);
  let text_chunks := get_text_chunks raw_text in
  get_vector_store W text_chunks api_key;;
  emit (st_success "Processing complete. You can now ask questions.").

Definition main (W : World) (form : Form) : M unit :=
  emit (st_header "AI Clone Chatbot 💁");;
  (if truthy (user_question form) && truthy (api_key form)
   then user_input W (user_question form) (api_key form)
   else mret tt);;
  emit (st_title "Menu:");;
  if process_button form && truthy (api_key form)
  then
    if Py.nonempty (pdf_docs form)
    then process W (pdf_docs form) (api_key form)
    else emit (st_error "Please upload at least one PDF file.")
  else mret tt.

(* ================================================================== *)
(** ** Vocabulary of the properties *)
(* ================================================================== *)

(** The text a page contributes: what [extract_text()] returns, the
    empty string for [None]. *)
Definition page_text (page : PageObject) : string :=
  match extract_text page with
  | inr (Some t) => t
  | _ => EmptyString
  end.

(** The parser opens the file and extraction returns on every page. *)
Definition opens (pdf : UploadedFile) : bool :=
  match PdfReader pdf with
  | inr pages =>
      forallb (fun page =>
                 match extract_text page with inr _ => true | inl _ => false end)
        pages
  | inl _ => false
  end.

(** The page texts of a document, in page order. *)
Definition document_texts (pdf : UploadedFile) : list string :=
  match PdfReader pdf with
  | inr pages => map page_text pages
  | inl _ => []
  end.

(** No page of the document has any text. *)
Definition no_text (pdf : UploadedFile) : bool :=
  forallb (fun t => negb (truthy t)) (document_texts pdf).

Definition concat_strings (l : list string) : string :=
  fold_right String.append EmptyString l.

(** The summed length of a list of pieces. *)
Definition total_len (l : list string) : Z :=
  fold_right (fun piece acc => len piece + acc) 0 l.

(** [c] is a contiguous window of [text]. *)
Definition window (c text : string) : Prop :=
  exists before after, text = before +:+ c +:+ after.

(** A chunk that is non-empty and within the chunk size. *)
Definition fits (chunk_size : Z) (c : string) : Prop :=
  c <> EmptyString /\ len c <= chunk_size.

(** [doc] is what [_join_docs] makes of a run of consecutive pieces of
    [pieces] whose summed length is within the chunk size. *)
Definition made_from (chunk_size : Z) (pieces : list string) (doc : string)
  : Prop :=
  exists before run after,
    pieces = before ++ run ++ after
    /\ Langchain._join_docs run "" = Some doc
    /\ total_len run <= chunk_size.

(** The invariant of the merging loop, [seen] being the pieces consumed
    so far: the running total is the summed length of the pieces held,
    it is within the chunk size, the pieces held are the last ones seen,
    and every chunk made comes from a run of the pieces seen. *)
Definition merge_inv (chunk_size : Z) (seen : list string)
    (st : list string * list string * Z) : Prop :=
  let '(docs, current_doc, total) := st in
  total = total_len current_doc
  /\ total <= chunk_size
  /\ (exists before, seen = before ++ current_doc)
  /\ Forall (made_from chunk_size seen) docs.

(** The invariant of the loop over the pieces, [seen] being the pieces
    consumed so far: the run to merge is made of the last pieces seen,
    all shorter than the chunk size, and every chunk made fits and is a
    window of the pieces seen. *)
Definition pieces_inv (chunk_size : Z) (seen : list string)
    (st : list string * list string) : Prop :=
  let '(final_chunks, _good_splits) := st in
  (exists before, seen = before ++ _good_splits)
  /\ Forall (fun piece => len piece < chunk_size) _good_splits
  /\ forall c, In c final_chunks ->
       fits chunk_size c /\ window c (concat_strings seen).

(** What a splitter on the remaining separators has to guarantee, and,
    when there is none, what the pieces have to satisfy. *)
Definition recurse_ok (chunk_size : Z)
    (recurse : option (string -> list string)) (pieces : list string)
  : Prop :=
  match recurse with
  | Some other_info =>
      forall s c, In c (other_info s) -> fits chunk_size c /\ window c s
  | None => Forall (fun piece => len piece < chunk_size) pieces
  end.

(** Windows of exactly [size] characters, each starting [size - overlap]
    characters after the one before. *)
Definition fixed_windows (size overlap : Z) (text : string)
    (chunks : list string) : Prop :=
  forall (i : nat) (c : string),
    chunks !! i = Some c ->
    len c = size
    /\ c = String.substring (Z.to_nat (Z.of_nat i * (size - overlap)))
             (Z.to_nat size) text.

(** The three fixed pieces of [prompt_template] around its two
    variables, and the prompt they make with a context and a question. *)
Definition prompt_before_context : string :=
  Langchain.nl
  +:+ "    Answer the question as detailed as possible from the provided context. If the answer is not in"
  +:+ Langchain.nl
  +:+ "    the provided context, say, " +:+ dquote
  +:+ "answer is not available in the context." +:+ dquote
  +:+ " Do not provide a wrong answer." +:+ Langchain.nl +:+ Langchain.nl
  +:+ Langchain.nl
  +:+ "    Context:" +:+ Langchain.nl +:+ " ".

Definition prompt_before_question : string :=
  Langchain.nl +:+ Langchain.nl +:+ "    Question:" +:+ Langchain.nl +:+ " ".

Definition prompt_after_question : string :=
  Langchain.nl +:+ Langchain.nl +:+ Langchain.nl
  +:+ "    Answer:" +:+ Langchain.nl +:+ "    ".

Definition filled_prompt (context question : string) : string :=
  prompt_before_context +:+ context
  +:+ prompt_before_question +:+ question
  +:+ prompt_after_question.

(** The documents a similarity search returns from a loaded index. *)
Definition retrieved (W : World) (data : IndexData) (embedding : Vector)
  : list string :=
  omap (fun i => stored_docstore data !! i)
    (take 4 (faiss_search W (stored_index data) embedding)).

(** The state [s] with more events on its trace. *)
Definition add_events (s : State) (evs : list Event) : State :=
  {| disk := disk s; trace := trace s ++ evs |}.

(** An event with the API key it carries blanked; only calls of the
    hosted services carry one. *)
Definition redact (ev : Event) : Event :=
  match ev with
  | call_embed_documents model _ texts =>
      call_embed_documents model EmptyString texts
  | call_embed_query model _ text => call_embed_query model EmptyString text
  | call_generate model temperature _ prompt =>
      call_generate model temperature EmptyString prompt
  | _ => ev
  end.

(** The key a hosted call is made with. *)
Definition key_of (ev : Event) : option string :=
  match ev with
  | call_embed_documents _ key _ => Some key
  | call_embed_query _ key _ => Some key
  | call_generate _ _ key _ => Some key
  | _ => None
  end.

(** Events only the processing pipeline produces. *)
Definition is_process_event (ev : Event) : bool :=
  match ev with
  | st_spinner _ | st_success _ | call_embed_documents _ _ _
  | call_save_local _ => true
  | _ => false
  end.

(** The loader on a folder that is not there: [faiss.read_index], the
    first thing [FAISS.load_local] calls, raises a [RuntimeError] for
    the index file it cannot open. *)
Definition absent_index_raises (W : World) : Prop :=
  forall (files : gmap string IndexData) (path : string),
    files !! path = None ->
    exists msg,
      faiss_read W files path = inl (mkExn (OtherException "RuntimeError") msg).

(** A world for examples: the embedding of a text is its length and the
    chat model always gives the same reply.  The FAISS library is as
    installed: no index is built from no vector ([FAISS.from_texts]
    raises [IndexError] looking for the first one), an index reads back
    as it was saved, and [faiss.read_index] raises [RuntimeError] when
    there is none. *)
Definition demo_world : World :=
  {| api_embed_documents := fun _ _ texts => inr (map (fun t => [len t]) texts);
     api_embed_query := fun _ _ text => inr [len text];
     api_generate := fun _ _ _ _ => inr "answer is not available in the context.";
     faiss_new_index := fun vectors =>
       match vectors with
       | [] => inl (mkExn (OtherException "IndexError")
                      "list index out of range")
       | _ :: _ => inr vectors
       end;
     faiss_read := fun files path =>
       match files !! path with
       | Some data => inr data
       | None =>
           inl (mkExn (OtherException "RuntimeError")
                  ("could not open " +:+ path
                   +:+ "/index.faiss for reading: No such file or directory"))
       end;
     faiss_search := fun index _ => seq 0 (length index) |}.

(** The same world with a document store file written by a newer
    Python: [pickle.load] rejects it with a [ValueError]. *)
Definition stale_world : World :=
  {| api_embed_documents := api_embed_documents demo_world;
     api_embed_query := api_embed_query demo_world;
     api_generate := api_generate demo_world;
     faiss_new_index := faiss_new_index demo_world;
     faiss_read := fun _ _ =>
       inl (mkExn ValueError "unsupported pickle protocol: 6");
     faiss_search := faiss_search demo_world |}.

(** The same world with an index file of a format the installed faiss
    does not read: [faiss.read_index] rejects it with a
    [RuntimeError]. *)
Definition mismatch_world : World :=
  {| api_embed_documents := api_embed_documents demo_world;
     api_embed_query := api_embed_query demo_world;
     api_generate := api_generate demo_world;
     faiss_new_index := faiss_new_index demo_world;
     faiss_read := fun files path =>
       match files !! path with
       | Some _ =>
           inl (mkExn (OtherException "RuntimeError")
                  "Index type 0x73726576 not recognized")
       | None => faiss_read demo_world files path
       end;
     faiss_search := faiss_search demo_world |}.

(** The same world with a folder that holds the index file and not the
    document store file next to it: [open] raises
    [FileNotFoundError]. *)
Definition half_saved_world : World :=
  {| api_embed_documents := api_embed_documents demo_world;
     api_embed_query := api_embed_query demo_world;
     api_generate := api_generate demo_world;
     faiss_new_index := faiss_new_index demo_world;
     faiss_read := fun files path =>
       match files !! path with
       | Some _ =>
           inl (mkExn FileNotFoundError
                  ("No such file or directory: " +:+ path +:+ "/index.pkl"))
       | None => faiss_read demo_world files path
       end;
     faiss_search := faiss_search demo_world |}.

Definition fresh_state : State := {| disk := ∅; trace := [] |}.

Definition report_index : IndexData :=
  {| stored_index := [[15]]; stored_docstore := ["Annual report."] |}.

Definition indexed_state : State :=
  {| disk := {["faiss_index" := report_index]}; trace := [] |}.

Definition report_form : Form :=
  {| api_key := "secret"; user_question := "";
     pdf_docs := [ {| PdfReader :=
                        inr [ {| extract_text := inr (Some "Annual report.") |} ] |} ];
     process_button := true |}.

(** The button pressed with a key and no uploaded file. *)
Definition empty_upload_form : Form :=
  {| api_key := "secret"; user_question := ""; pdf_docs := [];
     process_button := true |}.

(** The letter [c], [n] times. *)
Fixpoint repeat_char (n : nat) (c : ascii) : string :=
  match n with
  | O => EmptyString
  | S k => String c (repeat_char k c)
  end.

(** Three paragraphs of 6,000 characters each, separated by blank
    lines. *)
Definition three_paragraphs : string :=
  repeat_char (Z.to_nat 6000) "a"
  +:+ Langchain.nl +:+ Langchain.nl +:+ repeat_char (Z.to_nat 6000) "b"
  +:+ Langchain.nl +:+ Langchain.nl +:+ repeat_char (Z.to_nat 6000) "c".

(** A file PyPDF2 cannot parse. *)
Definition corrupt_upload : UploadedFile :=
  {| PdfReader :=
       inl (mkExn (OtherException "PdfReadError") "EOF marker not found") |}.

(** A two-page document whose second page is a scanned image, and a
    document of blank pages. *)
Definition report_upload : UploadedFile :=
  {| PdfReader := inr [ {| extract_text := inr (Some "Annual report. ") |};
                        {| extract_text := inr None |} ] |}.

Definition scanned_upload : UploadedFile :=
  {| PdfReader := inr [ {| extract_text := inr None |};
                        {| extract_text := inr (Some "") |} ] |}.

(* ================================================================== *)
(** ** Further worlds and forms for examples *)
(* ================================================================== *)

(** A world whose index loader fails with an exception the program does
    not handle. *)
Definition broken_world : World :=
  {| api_embed_documents := api_embed_documents demo_world;
     api_embed_query := api_embed_query demo_world;
     api_generate := api_generate demo_world;
     faiss_new_index := faiss_new_index demo_world;
     faiss_read := fun _ _ =>
       inl (mkExn (OtherException "RuntimeError") "could not open index.faiss");
     faiss_search := faiss_search demo_world |}.

(** A question asked in the same run as the process button is pressed
    on an uploaded report. *)
Definition question_form : Form :=
  {| api_key := "secret"; user_question := "What is the revenue?";
     pdf_docs := pdf_docs report_form;
     process_button := true |}.

(** The loader reads back what storage holds under the path. *)
Definition reads_back (W : World) : Prop :=
  forall (files : gmap string IndexData) (path : string) (data : IndexData),
    files !! path = Some data -> faiss_read W files path = inr data.

(** The events of a query, by its outcome. *)
Definition query_events (W : World) (user_question api_key : string)
    (s : State) : list Event :=
  [logger_info "Loading vector store..."; call_load_local "faiss_index"]
  ++ match faiss_read W (disk s) "faiss_index" with
     | inl e =>
         if is_FileNotFoundError e then
           [st_error "Vector store file not found. Please upload and process your PDF files."]
         else if is_ValueError e then
           [st_error ("Error loading vector store: " +:+ exn_str e);
            logger_error ("Error loading vector store: " +:+ exn_str e)]
         else []
     | inr data =>
         [logger_info "Vector store loaded successfully.";
          call_embed_query "models/embedding-001" api_key user_question]
         ++ match api_embed_query W "models/embedding-001" api_key
                    user_question with
            | inl _ => []
            | inr embedding =>
                let prompt :=
                  filled_prompt
                    (join (Langchain.nl +:+ Langchain.nl)
                       (retrieved W data embedding))
                    user_question in
                call_generate "gemini-pro" (3 # 10) api_key prompt
                :: match api_generate W "gemini-pro" (3 # 10) api_key prompt
                   with
                   | inl _ => []
                   | inr answer => [st_write ["Reply: "; answer]]
                   end
            end
     end.

(** The bodies of the two loops of [get_pdf_text]. *)
Definition page_step (text : string) (page : PageObject) : Result string :=
  extracted ← extract_text page;
  mret (text +:+ default EmptyString extracted).

Definition document_step (text : string) (pdf : UploadedFile)
  : Result string :=
  pages ← PdfReader pdf;
  for_each pages text page_step.

(** One well-formed character: a lead byte, then continuation bytes
    only. *)
Definition proper (c : string) : bool :=
  match c with
  | EmptyString => false
  | String b rest =>
      negb (is_continuation b)
      && forallb is_continuation (list_ascii_of_string rest)
  end.

(** A well-formed character that is not white space. *)
Definition plain (c : string) : bool := proper c && negb (isspace c).

(** The lists of characters [chars] returns: after the first, which may
    be made of stray continuation bytes, every one is well formed. *)
Definition canonical (cs : list string) : Prop :=
  match cs with
  | [] => True
  | c :: rest =>
      (exists b tail,
          c = String b tail
          /\ forallb is_continuation (list_ascii_of_string tail) = true)
      /\ forallb proper rest = true
  end.

(** The windows of [size] items taken every [stride] items, the last
    one shorter when the items run out; [fuel] bounds their number. *)
Fixpoint sliding_windows {A} (fuel size stride : nat) (cs : list A)
  : list (list A) :=
  match fuel with
  | O => []
  | S fuel' =>
      match cs with
      | [] => []
      | _ :: _ =>
          if (length cs <=? size)%nat then [cs]
          else take size cs
               :: sliding_windows fuel' size stride (drop stride cs)
      end
  end.

(** U+2003, the em space: white space of three bytes. *)
Definition em_space : string :=
  String (ascii_of_N 226) (String (ascii_of_N 128)
    (String (ascii_of_N 131) EmptyString)).

(** A word of 19,000 letters: a text without white space, longer than
    one chunk. *)
Definition long_word : string := repeat_char (Z.to_nat 19000) "x".

(** What the splitter makes of a text shorter than the chunk size. *)
Definition single_chunk (text : string) : list string :=
  if truthy (strip text) then [strip text] else [].

(* ================================================================== *)
(** ** Reasoning about runs *)
(* ================================================================== *)

(** The events a computation adds to the trace of [s]. *)
Definition events_of {A} (m : M A) (s : State) : list Event :=
  drop (length (trace s)) (trace (snd (m s))).

(** Unfold one layer of the monad. *)
Ltac run :=
  repeat (progress (cbn [mbind mret M_bind M_ret bind ret raise catch lift
                         emit read_disk write_disk fst snd disk trace negb
                         emb_model emb_google_api_key chat_model
                         chat_temperature chat_google_api_key
                         FAISS.embedding_function FAISS.index FAISS.docstore]
                    || unfold mbind, mret, M_bind, M_ret, bind, ret, raise,
                         catch, lift, emit, read_disk, write_disk)).

Section Query.
Variable W : World.
Variables user_question api_key : string.
Variable s : State.

(** C2, which the code misses.  When storage holds no index, the loader
    raises the [RuntimeError] of [faiss.read_index].  [user_input]
    catches [FileNotFoundError], for which it has the message "Vector
    store file not found. Please upload and process your PDF files.",
    and [ValueError]; it does not catch this one.  The query ends with
    the exception right after the load attempt: no message is shown,
    and neither the similarity search nor the chat model is called. *)
Theorem user_input_absent_index :
  absent_index_raises W ->
  disk s !! "faiss_index" = None ->
  exists msg,
    user_input W user_question api_key s =
      (inl (mkExn (OtherException "RuntimeError") msg),
       {| disk := disk s;
          trace := trace s ++
            [logger_info "Loading vector store...";
             call_load_local "faiss_index"] |}).
Proof.
  intros Hloader Habsent.
  destruct (Hloader (disk s) "faiss_index" Habsent) as [msg Hread].
  exists msg. unfold user_input, FAISS.load_local. run.
  rewrite Hread. run. rewrite <- !app_assoc. reflexivity.
Qed.

(** X15. The message "Vector store file not found. Please upload and
    process your PDF files." is shown when the loader raises
    [FileNotFoundError], as [open] does for a folder without its
    document store file.  [user_input] then returns normally: the
    storage is untouched and the only events are the log line, the load
    attempt and the message, so neither the similarity search nor the
    chat model is called. *)
Theorem user_input_missing_index (e : Exn) :
  faiss_read W (disk s) "faiss_index" = inl e ->
  is_FileNotFoundError e = true ->
  user_input W user_question api_key s =
    (inr tt,
     {| disk := disk s;
        trace := trace s ++
          [logger_info "Loading vector store...";
           call_load_local "faiss_index";
           st_error "Vector store file not found. Please upload and process your PDF files."] |}).
Proof.
  intros Hread Hnf. unfold user_input, FAISS.load_local. run.
  rewrite Hread. run. rewrite Hnf. run.
  rewrite <- !app_assoc. reflexivity.
Qed.

(** C4, as amended.  When loading the persisted index fails with a
    [ValueError] (what [pickle.load] raises for a document store file
    of an unsupported protocol), [user_input] shows
    "Error loading vector store: " followed by the error text, logs the
    same line and returns normally.  The loader was called once, the
    storage is untouched, and neither the similarity search nor the chat
    model is called. *)
Theorem user_input_load_failure (e : Exn) :
  faiss_read W (disk s) "faiss_index" = inl e ->
  is_ValueError e = true ->
  user_input W user_question api_key s =
    (inr tt,
     {| disk := disk s;
        trace := trace s ++
          [logger_info "Loading vector store...";
           call_load_local "faiss_index";
           st_error ("Error loading vector store: " +:+ exn_str e);
           logger_error ("Error loading vector store: " +:+ exn_str e)] |}).
Proof.
  intros Hread Hve.
  assert (Hnf : is_FileNotFoundError e = false).
  { unfold is_ValueError in Hve. unfold is_FileNotFoundError.
    destruct (exn_class e); (discriminate || reflexivity). }
  unfold user_input, FAISS.load_local. run.
  rewrite Hread. run. rewrite Hnf, Hve. run.
  rewrite <- !app_assoc. reflexivity.
Qed.

(** The template of the chain is formatted by filling its two
    variables. *)
Lemma prompt_format (key context question : string) :
  PromptTemplate.format (StuffChain.prompt (get_conversational_chain key))
    [("context", context); ("question", question)]
  = inr (filled_prompt context question).
Proof. vm_compute. reflexivity. Qed.

(** C7. The chain [get_conversational_chain] builds carries the same
    template for every key, with the two input variables [context] and
    [question], which are the two fields of the template.  In a query
    whose index loads and whose hosted calls answer, the prompt sent to
    the chat model is that template with the retrieved documents (joined
    by blank lines) as the context and the user's question as the
    question, and the text the model returns is written to the page
    after "Reply: ". *)
Theorem user_input_prompt (data : IndexData) (embedding : Vector)
    (answer : string) :
  let docs := retrieved W data embedding in
  let prompt := filled_prompt (join (Langchain.nl +:+ Langchain.nl) docs)
                  user_question in
  faiss_read W (disk s) "faiss_index" = inr data ->
  api_embed_query W "models/embedding-001" api_key user_question
    = inr embedding ->
  api_generate W "gemini-pro" (3 # 10) api_key prompt = inr answer ->
  StuffChain.prompt (get_conversational_chain api_key)
    = {| PromptTemplate.template := prompt_template;
         PromptTemplate.input_variables := ["context"; "question"] |}
  /\ PromptTemplate.fields (StuffChain.prompt (get_conversational_chain api_key))
     = ["context"; "question"]
  /\ user_input W user_question api_key s =
       (inr tt,
        {| disk := disk s;
           trace := trace s ++
             [logger_info "Loading vector store...";
              call_load_local "faiss_index";
              logger_info "Vector store loaded successfully.";
              call_embed_query "models/embedding-001" api_key user_question;
              call_generate "gemini-pro" (3 # 10) api_key prompt;
              st_write ["Reply: "; answer]] |}).
Proof.
  intros docs prompt Hread Hquery Hanswer.
  split; [reflexivity|]. split; [vm_compute; reflexivity|].
  unfold user_input, FAISS.load_local, FAISS.similarity_search,
    StuffChain.call, embed_query, generate. run.
  rewrite Hread. run. rewrite Hquery. run.
  change (StuffChain.document_variable_name (get_conversational_chain api_key))
    with "context".
  change (StuffChain.document_separator (get_conversational_chain api_key))
    with (Langchain.nl +:+ Langchain.nl).
  rewrite prompt_format.
  fold (retrieved W data embedding). fold docs. fold prompt.
  run. cbn [StuffChain.llm get_conversational_chain StuffChain.load_qa_chain
            chat_model chat_temperature chat_google_api_key].
  rewrite Hanswer. run.
  rewrite lookup_singleton_eq. cbn [default].
  rewrite <- !app_assoc. reflexivity.
Qed.

End Query.

Lemma user_input_absent_index_witness :
  exists msg,
    user_input demo_world "What is the revenue?" "secret" fresh_state =
      (inl (mkExn (OtherException "RuntimeError") msg),
       {| disk := ∅;
          trace :=
            [logger_info "Loading vector store...";
             call_load_local "faiss_index"] |}).
Proof.
  apply (user_input_absent_index demo_world "What is the revenue?" "secret"
           fresh_state).
  - intros files path Habsent. cbn [faiss_read demo_world].
    rewrite Habsent. eauto.
  - reflexivity.
Defined.

Lemma user_input_missing_index_witness :
  user_input half_saved_world "What is the revenue?" "secret" indexed_state =
    (inr tt,
     {| disk := disk indexed_state;
        trace :=
          [logger_info "Loading vector store...";
           call_load_local "faiss_index";
           st_error "Vector store file not found. Please upload and process your PDF files."] |}).
Proof.
  exact (user_input_missing_index half_saved_world "What is the revenue?"
           "secret" indexed_state
           (mkExn FileNotFoundError
              "No such file or directory: faiss_index/index.pkl")
           eq_refl eq_refl).
Defined.

Lemma user_input_load_failure_witness :
  user_input stale_world "What is the revenue?" "secret" indexed_state =
    (inr tt,
     {| disk := {["faiss_index" := report_index]};
        trace :=
          [logger_info "Loading vector store...";
           call_load_local "faiss_index";
           st_error "Error loading vector store: unsupported pickle protocol: 6";
           logger_error "Error loading vector store: unsupported pickle protocol: 6"] |}).
Proof.
  exact (user_input_load_failure stale_world "What is the revenue?" "secret"
           indexed_state (mkExn ValueError "unsupported pickle protocol: 6")
           eq_refl eq_refl).
Defined.

Lemma user_input_prompt_witness :
  user_input demo_world "What is the revenue?" "secret" indexed_state =
    (inr tt,
     {| disk := {["faiss_index" := report_index]};
        trace :=
          [logger_info "Loading vector store...";
           call_load_local "faiss_index";
           logger_info "Vector store loaded successfully.";
           call_embed_query "models/embedding-001" "secret"
             "What is the revenue?";
           call_generate "gemini-pro" (3 # 10) "secret"
             (filled_prompt "Annual report." "What is the revenue?");
           st_write ["Reply: "; "answer is not available in the context."]] |}).
Proof.
  exact (proj2 (proj2
           (user_input_prompt demo_world "What is the revenue?" "secret"
              indexed_state report_index [20]
              "answer is not available in the context."
              eq_refl eq_refl eq_refl))).
Defined.

(* ================================================================== *)
(** ** Strings *)
(* ================================================================== *)

Section StringFacts.

Lemma append_nil_l (a : string) : "" +:+ a = a.
Proof. reflexivity. Qed.

Lemma append_cons (c : ascii) (a b : string) :
  String c a +:+ b = String c (a +:+ b).
Proof. reflexivity. Qed.

Lemma append_nil_r (a : string) : a +:+ "" = a.
Proof.
  induction a as [|c a IH]; [reflexivity|]. now rewrite append_cons, IH.
Qed.

Lemma append_assoc (a b c : string) : (a +:+ b) +:+ c = a +:+ (b +:+ c).
Proof.
  induction a as [|x a IH]; [reflexivity|]. now rewrite !append_cons, IH.
Qed.

Lemma len_cons (c : ascii) (a : string) :
  len (String c a) = (if is_continuation c then 0 else 1) + len a.
Proof. unfold len. cbn [count_chars]. destruct (is_continuation c); lia. Qed.

Lemma len_append (a b : string) : len (a +:+ b) = len a + len b.
Proof.
  induction a as [|x a IH]; [reflexivity|].
  rewrite append_cons, !len_cons, IH. lia.
Qed.

Lemma len_nonneg (a : string) : 0 <= len a.
Proof. unfold len. lia. Qed.

Lemma truthy_false (a : string) : truthy a = false <-> a = "".
Proof. destruct a; cbn; split; congruence. Qed.

End StringFacts.

(* ================================================================== *)
(** ** Text extraction *)
(* ================================================================== *)

Section Extraction.

Lemma concat_strings_cons (a : string) (l : list string) :
  concat_strings (a :: l) = a +:+ concat_strings l.
Proof. reflexivity. Qed.

Lemma concat_strings_app (l1 l2 : list string) :
  concat_strings (l1 ++ l2) = concat_strings l1 +:+ concat_strings l2.
Proof.
  induction l1 as [|a l1 IH]; [reflexivity|].
  rewrite <- app_comm_cons, !concat_strings_cons, IH.
  now rewrite append_assoc.
Qed.

Lemma concat_strings_no_text (l : list string) :
  forallb (fun t => negb (truthy t)) l = true -> concat_strings l = "".
Proof.
  induction l as [|a l IH]; [reflexivity|].
  cbn [forallb]. intros H. apply andb_prop in H as [Ha Hl].
  apply negb_true_iff, truthy_false in Ha. subst a.
  rewrite concat_strings_cons. auto.
Qed.

(** The inner loop over the pages of one document. *)
Lemma pages_loop (pages : list PageObject) (text : string) :
  forallb (fun page =>
             match extract_text page with inr _ => true | inl _ => false end)
    pages = true ->
  for_each pages text (fun text page =>
      extracted ← extract_text page;
      mret (text +:+ default EmptyString extracted))
  = inr (text +:+ concat_strings (map page_text pages)).
Proof.
  revert text. induction pages as [|page pages IH]; intros text Hok.
  - unfold concat_strings. cbn [for_each map fold_right].
    rewrite append_nil_r. reflexivity.
  - cbn [forallb] in Hok. apply andb_prop in Hok as [Hpage Hrest].
    cbn [for_each map]. rewrite concat_strings_cons.
    unfold page_text at 1.
    destruct (extract_text page) as [e|extracted]; [discriminate|].
    cbn [mbind Result_bind mret Result_ret].
    rewrite (IH (text +:+ default "" extracted) Hrest), append_assoc.
    destruct extracted; reflexivity.
Qed.

(** The outer loop over the documents, from any accumulated text. *)
Lemma documents_loop (docs : list UploadedFile) (text : string) :
  forallb opens docs = true ->
  for_each docs text (fun text pdf =>
    pages ← PdfReader pdf;
    for_each pages text (fun text page =>
      extracted ← extract_text page;
      mret (text +:+ default EmptyString extracted)))
  = inr (text +:+ concat_strings (flat_map document_texts docs)).
Proof.
  revert text. induction docs as [|pdf docs IH]; intros text Hok.
  - unfold concat_strings. cbn [for_each flat_map fold_right].
    rewrite append_nil_r. reflexivity.
  - cbn [forallb] in Hok. apply andb_prop in Hok as [Hpdf Hrest].
    cbn [for_each flat_map]. unfold opens in Hpdf.
    unfold document_texts at 1.
    destruct (PdfReader pdf) as [e|pages]; [discriminate|].
    cbn [mbind Result_bind].
    rewrite (pages_loop pages text Hpdf). cbn [mbind Result_bind].
    rewrite IH by assumption.
    now rewrite concat_strings_app, append_assoc.
Qed.

Lemma get_pdf_text_reads (docs : list UploadedFile) :
  forallb opens docs = true ->
  get_pdf_text docs = inr (concat_strings (flat_map document_texts docs)).
Proof.
  intros Hdocs. unfold get_pdf_text.
  now rewrite (documents_loop docs "" Hdocs), append_nil_l.
Qed.

Lemma get_pdf_text_no_text (docs : list UploadedFile) :
  forallb opens docs = true ->
  forallb no_text docs = true ->
  get_pdf_text docs = inr "".
Proof.
  intros Hdocs Hnone. rewrite (get_pdf_text_reads docs Hdocs). f_equal.
  clear Hdocs. induction docs as [|pdf docs IH]; [reflexivity|].
  cbn [forallb flat_map] in *.
  apply andb_prop in Hnone as [Hpdf Hnone].
  rewrite concat_strings_app, (concat_strings_no_text _ Hpdf).
  rewrite append_nil_l. auto.
Qed.

(** C5, as amended.  For uploaded documents the parser reads,
    [get_pdf_text] returns
    one string: the texts of all pages, concatenated in document order
    and, within a document, in page order.  Nothing else is returned:
    two uploads whose page texts concatenate to the same string give the
    same result, whatever their division into documents and pages. *)
Theorem get_pdf_text_concatenates (docs docs' : list UploadedFile) :
  forallb opens docs = true ->
  forallb opens docs' = true ->
  get_pdf_text docs = inr (concat_strings (flat_map document_texts docs))
  /\ (concat_strings (flat_map document_texts docs)
        = concat_strings (flat_map document_texts docs') ->
      get_pdf_text docs = get_pdf_text docs').
Proof.
  intros Hdocs Hdocs'.
  rewrite (get_pdf_text_reads docs Hdocs), (get_pdf_text_reads docs' Hdocs').
  split; [reflexivity|]. now intros ->.
Qed.

Lemma get_pdf_text_concatenates_witness :
  get_pdf_text [report_upload; scanned_upload] = inr "Annual report. "
  /\ get_pdf_text [report_upload; scanned_upload]
     = get_pdf_text [scanned_upload; report_upload].
Proof.
  pose proof (get_pdf_text_concatenates
                [report_upload; scanned_upload]
                [scanned_upload; report_upload] eq_refl eq_refl) as [H1 H2].
  split; [exact H1 | exact (H2 eq_refl)].
Defined.

(** C5, the claim as stated fails: when the first of two uploads is a
    file the parser cannot read, [get_pdf_text] returns no string, and
    the text of the second upload, which the parser reads, is not
    extracted. *)
Lemma get_pdf_text_returns_no_string :
  get_pdf_text [report_upload] = inr "Annual report. "
  /\ get_pdf_text [corrupt_upload; report_upload]
     = inl (mkExn (OtherException "PdfReadError") "EOF marker not found")
  /\ get_pdf_text [corrupt_upload; report_upload]
     <> inr (concat_strings
               (flat_map document_texts [corrupt_upload; report_upload])).
Proof.
  split; [reflexivity|]. split; [reflexivity | discriminate].
Qed.

Lemma for_each_raises (before after : list UploadedFile)
    (pdf : UploadedFile) (e : Exn) (text : string) :
  forallb opens before = true ->
  PdfReader pdf = inl e ->
  for_each (before ++ pdf :: after) text (fun text pdf =>
    pages ← PdfReader pdf;
    for_each pages text (fun text page =>
      extracted ← extract_text page;
      mret (text +:+ default EmptyString extracted)))
  = inl e.
Proof.
  revert text. induction before as [|doc before IH]; intros text Hok Hpdf.
  - cbn [app for_each]. rewrite Hpdf. reflexivity.
  - cbn [forallb] in Hok. apply andb_prop in Hok as [Hdoc Hok].
    cbn [app for_each]. unfold opens in Hdoc.
    destruct (PdfReader doc) as [e'|pages]; [discriminate|].
    cbn [mbind Result_bind].
    rewrite (pages_loop pages text Hdoc). cbn [mbind Result_bind].
    now apply IH.
Qed.

(** C3, as amended.  For documents the parser reads, including those
    whose pages have no extractable text ([extract_text()] returns
    [None]), [get_pdf_text] returns a string and does not raise; when no
    page of any document has text (also when there are no pages, or no
    documents) the string is empty.  The exception of the first
    document the parser cannot read is raised by [get_pdf_text]. *)
Theorem get_pdf_text_tolerates_missing_text (docs : list UploadedFile) :
  (forallb opens docs = true ->
   (exists text, get_pdf_text docs = inr text)
   /\ (forallb no_text docs = true -> get_pdf_text docs = inr ""))
  /\ (forall before pdf after e,
        docs = before ++ pdf :: after ->
        forallb opens before = true ->
        PdfReader pdf = inl e ->
        get_pdf_text docs = inl e).
Proof.
  split.
  - intros Hdocs. split.
    + rewrite (get_pdf_text_reads docs Hdocs). eauto.
    + now apply get_pdf_text_no_text.
  - intros before pdf after e -> Hbefore Hpdf.
    unfold get_pdf_text. now apply for_each_raises.
Qed.

Lemma get_pdf_text_tolerates_missing_text_witness :
  (exists text, get_pdf_text [scanned_upload; scanned_upload] = inr text)
  /\ get_pdf_text [scanned_upload; scanned_upload] = inr "".
Proof.
  pose proof (proj1 (get_pdf_text_tolerates_missing_text
                       [scanned_upload; scanned_upload]) eq_refl) as [H1 H2].
  split; [exact H1 | exact (H2 eq_refl)].
Defined.

(** C3, the claim as stated fails: a file the parser cannot read makes
    [get_pdf_text] raise the parser's exception; no text is returned. *)
Lemma get_pdf_text_unreadable_raises :
  get_pdf_text [report_upload; corrupt_upload]
    = inl (mkExn (OtherException "PdfReadError") "EOF marker not found")
  /\ ~ (exists text, get_pdf_text [report_upload; corrupt_upload] = inr text).
Proof.
  split; [reflexivity|]. intros [text H]. discriminate H.
Qed.

End Extraction.

(* ================================================================== *)
(** ** The two pipelines, case by case *)
(* ================================================================== *)

Section Pipelines.
Variable W : World.

Lemma add_events_app (s : State) (evs evs' : list Event) :
  add_events (add_events s evs) evs' = add_events s (evs ++ evs').
Proof. unfold add_events. cbn. now rewrite app_assoc. Qed.

(** Close a goal that holds up to the bracketing of the trace. *)
Ltac same_trace := rewrite <- ?app_assoc; reflexivity.

(** Every outcome of the query pipeline. *)
Lemma user_input_run (user_question api_key : string) (s : State) :
  user_input W user_question api_key s =
    let s1 := add_events s [logger_info "Loading vector store...";
                            call_load_local "faiss_index"] in
    match faiss_read W (disk s) "faiss_index" with
    | inl e =>
        if is_FileNotFoundError e then
          (inr tt,
           add_events s1
             [st_error "Vector store file not found. Please upload and process your PDF files."])
        else if is_ValueError e then
          (inr tt,
           add_events s1
             [st_error ("Error loading vector store: " +:+ exn_str e);
              logger_error ("Error loading vector store: " +:+ exn_str e)])
        else (inl e, s1)
    | inr data =>
        let s2 := add_events s1
                    [logger_info "Vector store loaded successfully.";
                     call_embed_query "models/embedding-001" api_key
                       user_question] in
        match api_embed_query W "models/embedding-001" api_key user_question
        with
        | inl e => (inl e, s2)
        | inr embedding =>
            let prompt :=
              filled_prompt
                (join (Langchain.nl +:+ Langchain.nl)
                   (retrieved W data embedding))
                user_question in
            let s3 := add_events s2
                        [call_generate "gemini-pro" (3 # 10) api_key prompt] in
            match api_generate W "gemini-pro" (3 # 10) api_key prompt with
            | inl e => (inl e, s3)
            | inr answer => (inr tt, add_events s3 [st_write ["Reply: "; answer]])
            end
        end
    end.
Proof.
  unfold user_input, FAISS.load_local, FAISS.similarity_search,
    StuffChain.call, embed_query, generate, add_events. run.
  destruct (faiss_read W (disk s) "faiss_index") as [e|data]; run.
  - destruct (is_FileNotFoundError e); run; [same_trace|].
    destruct (is_ValueError e); run; same_trace.
  - destruct (api_embed_query W "models/embedding-001" api_key user_question)
      as [e|embedding]; run; [same_trace|].
    change (StuffChain.document_variable_name
              (get_conversational_chain api_key)) with "context".
    change (StuffChain.document_separator (get_conversational_chain api_key))
      with (Langchain.nl +:+ Langchain.nl).
    rewrite prompt_format. fold (retrieved W data embedding). run.
    cbn [StuffChain.llm get_conversational_chain StuffChain.load_qa_chain
           chat_model chat_temperature chat_google_api_key].
    destruct (api_generate W "gemini-pro" (3 # 10) api_key _) as [e|answer];
      run; [same_trace|].
    rewrite lookup_singleton_eq. same_trace.
Qed.

(** Every outcome of the processing pipeline. *)
Lemma process_run (pdf_docs : list UploadedFile) (api_key : string)
    (s : State) :
  process W pdf_docs api_key s =
    let s1 := add_events s [st_spinner "Processing..."] in
    match get_pdf_text pdf_docs with
    | inl e => (inl e, s1)
    | inr raw_text =>
        let text_chunks := get_text_chunks raw_text in
        let s2 := add_events s1
                    [call_embed_documents "models/embedding-001" api_key
                       text_chunks] in
        match api_embed_documents W "models/embedding-001" api_key text_chunks
        with
        | inl e => (inl e, s2)
        | inr embeddings =>
            match faiss_new_index W embeddings with
            | inl e => (inl e, s2)
            | inr index =>
                (inr tt,
                 {| disk :=
                      <["faiss_index" :=
                          {| stored_index := index;
                             stored_docstore := text_chunks |}]> (disk s);
                    trace :=
                      trace s ++
                        [st_spinner "Processing...";
                         call_embed_documents "models/embedding-001" api_key
                           text_chunks;
                         call_save_local "faiss_index";
                         st_success
                           "Processing complete. You can now ask questions."] |})
            end
        end
    end.
Proof.
  unfold process, get_vector_store, FAISS.from_texts, FAISS.save_local,
    embed_documents, add_events. run.
  destruct (get_pdf_text pdf_docs) as [e|raw_text]; run; [same_trace|].
  destruct (api_embed_documents W "models/embedding-001" api_key
              (get_text_chunks raw_text)) as [e|embeddings]; run;
    [same_trace|].
  destruct (faiss_new_index W embeddings) as [e|index]; run; same_trace.
Qed.

(** The script: what runs depends on the form alone. *)
Lemma main_run (form : Form) (s : State) :
  main W form s =
    let s0 := add_events s [st_header "AI Clone Chatbot 💁"] in
    let '(r, s1) :=
      if truthy (user_question form) && truthy (api_key form)
      then user_input W (user_question form) (api_key form) s0
      else (inr tt, s0) in
    match r with
    | inl e => (inl e, s1)
    | inr _ =>
        let s2 := add_events s1 [st_title "Menu:"] in
        if process_button form && truthy (api_key form)
        then
          if Py.nonempty (pdf_docs form)
          then process W (pdf_docs form) (api_key form) s2
          else (inr tt,
                add_events s2 [st_error "Please upload at least one PDF file."])
        else (inr tt, s2)
    end.
Proof.
  unfold main, add_events. run.
  destruct (truthy (user_question form) && truthy (api_key form)); run.
  - destruct (user_input W (user_question form) (api_key form) _)
      as [[e|[]] s1]; run; [reflexivity|].
    destruct (process_button form && truthy (api_key form)); run;
      [|reflexivity].
    destruct (Py.nonempty (pdf_docs form)); reflexivity.
  - destruct (process_button form && truthy (api_key form)); run;
      [|reflexivity].
    destruct (Py.nonempty (pdf_docs form)); reflexivity.
Qed.

(** The query pipeline writes nothing to storage and only appends to the
    trace. *)
Lemma user_input_appends (user_question api_key : string) (s : State) :
  exists evs,
    snd (user_input W user_question api_key s) = add_events s evs
    /\ Forall (fun ev => forall k, key_of ev = Some k -> k = api_key) evs
    /\ ~ In (st_spinner "Processing...") evs.
Proof.
  rewrite user_input_run. cbv zeta.
  assert (Hkey : forall evs : list Event,
             forallb (fun ev => match key_of ev with
                                | Some k => String.eqb k api_key
                                | None => true
                                end) evs = true ->
             Forall (fun ev => forall k, key_of ev = Some k -> k = api_key) evs).
  { intros evs H. apply List.Forall_forall. intros ev Hin k Hk.
    rewrite forallb_forall in H. specialize (H ev Hin). rewrite Hk in H.
    now apply String.eqb_eq. }
  assert (Hspin : forall evs : list Event,
             forallb (fun ev => match ev with st_spinner _ => false | _ => true end)
               evs = true ->
             ~ In (st_spinner "Processing...") evs).
  { intros evs H Hin. rewrite forallb_forall in H. now specialize (H _ Hin). }
  destruct (faiss_read W (disk s) "faiss_index") as [e|data].
  - destruct (is_FileNotFoundError e); [|destruct (is_ValueError e)];
      rewrite ?add_events_app; cbn [snd app]; eexists;
      (split; [reflexivity|]);
      (split; [apply Hkey; reflexivity|]);
      apply Hspin; reflexivity.
  - destruct (api_embed_query W _ api_key user_question) as [e|embedding];
      [|destruct (api_generate W _ _ api_key _) as [e|answer]];
      rewrite ?add_events_app; cbn [snd app]; eexists;
      (split; [reflexivity|]);
      (split; [apply Hkey; cbn [forallb key_of]; rewrite ?String.eqb_refl;
               reflexivity|]);
      apply Hspin; reflexivity.
Qed.

Lemma user_input_disk (user_question api_key : string) (s : State) :
  disk (snd (user_input W user_question api_key s)) = disk s.
Proof.
  destruct (user_input_appends user_question api_key s) as (evs & -> & _).
  reflexivity.
Qed.

(** The processing pipeline appends its own events, and touches storage
    at the index path only. *)
Lemma process_appends (pdf_docs : list UploadedFile) (api_key : string)
    (s : State) :
  exists evs,
    trace (snd (process W pdf_docs api_key s))
      = trace s ++ st_spinner "Processing..." :: evs
    /\ forallb is_process_event evs = true
    /\ Forall (fun ev => forall k, key_of ev = Some k -> k = api_key) evs
    /\ (forall path, path <> "faiss_index" ->
        disk (snd (process W pdf_docs api_key s)) !! path = disk s !! path).
Proof.
  rewrite process_run. cbv zeta.
  destruct (get_pdf_text pdf_docs) as [e|raw_text];
    [|destruct (api_embed_documents W _ api_key _) as [e|embeddings];
      [|destruct (faiss_new_index W embeddings) as [e|index]]];
    cbn [snd add_events trace disk app]; rewrite <- ?app_assoc; cbn [app];
    eexists; (split; [reflexivity|]); (split; [reflexivity|]);
    (split; [repeat constructor; cbn [key_of]; congruence|]);
    intros path Hpath; try reflexivity.
  now rewrite lookup_insert_ne.
Qed.

End Pipelines.

(* ================================================================== *)
(** ** Persistent storage and the API key *)
(* ================================================================== *)

Section Persistence.
Variable W : World.

(** C6, as amended.  A run of the script changes persistent storage at
    the path "faiss_index" at most, and a processing run that completes
    leaves
    there the index built in this run, from this run's chunks: whatever
    was stored under the path before is replaced as a whole. *)
Theorem index_overwritten_at_fixed_path (form : Form)
    (docs : list UploadedFile) (key : string) (s : State) :
  (forall path, path <> "faiss_index" ->
     disk (snd (main W form s)) !! path = disk s !! path)
  /\ (fst (process W docs key s) = inr tt ->
      exists raw_text embeddings index,
        get_pdf_text docs = inr raw_text
        /\ api_embed_documents W "models/embedding-001" key
             (get_text_chunks raw_text) = inr embeddings
        /\ faiss_new_index W embeddings = inr index
        /\ disk (snd (process W docs key s))
           = <["faiss_index" :=
                 {| stored_index := index;
                    stored_docstore := get_text_chunks raw_text |}]> (disk s)).
Proof.
  split.
  - intros path Hpath. rewrite main_run. cbv zeta.
    set (s0 := add_events s _).
    assert (Hq : forall s1 r,
               (if truthy (user_question form) && truthy (api_key form)
                then user_input W (user_question form) (api_key form) s0
                else (inr tt, s0)) = (r, s1) -> disk s1 = disk s).
    { intros s1 r. destruct (_ && _).
      - intros E. change s1 with (snd (r, s1)). rewrite <- E.
        now rewrite user_input_disk.
      - now intros [= _ <-]. }
    destruct (if _ && _ then _ else _) as [r s1] eqn:E.
    specialize (Hq _ _ eq_refl).
    destruct r as [e|u]; cbn [snd]; [now rewrite Hq|].
    destruct (process_button form && _); cbn [snd add_events disk];
      [|now rewrite Hq].
    destruct (Py.nonempty _); cbn [snd add_events disk]; [|now rewrite Hq].
    destruct (process_appends W (pdf_docs form)
                (api_key form) (add_events s1 [st_title "Menu:"]))
      as (evs & _ & _ & _ & Hframe).
    rewrite (Hframe path Hpath). cbn [add_events disk]. now rewrite Hq.
  - rewrite process_run. cbv zeta.
    destruct (get_pdf_text docs) as [e|raw_text]; [discriminate|].
    destruct (api_embed_documents W _ key _) as [e|embeddings] eqn:Hemb;
      [discriminate|].
    destruct (faiss_new_index W embeddings) as [e|index] eqn:Hindex;
      [discriminate|].
    intros _. exists raw_text, embeddings, index. auto.
Qed.

(** C8. The API key influences a run only through the answers of the
    hosted services.  For two keys the services answer alike, the
    processing pipeline ends with the same result and the same storage,
    and its trace differs at most in the key carried by the calls of the
    hosted services; the same holds for the query pipeline, which leaves
    storage as it was. *)
Theorem api_key_reaches_hosted_apis_only (pdf_docs : list UploadedFile)
    (user_question key1 key2 : string) (s : State) :
  (forall model texts,
     api_embed_documents W model key1 texts
     = api_embed_documents W model key2 texts) ->
  (forall model text,
     api_embed_query W model key1 text = api_embed_query W model key2 text) ->
  (forall model temperature prompt,
     api_generate W model temperature key1 prompt
     = api_generate W model temperature key2 prompt) ->
  let p1 := process W pdf_docs key1 s in
  let p2 := process W pdf_docs key2 s in
  let q1 := user_input W user_question key1 s in
  let q2 := user_input W user_question key2 s in
  (fst p1 = fst p2
   /\ disk (snd p1) = disk (snd p2)
   /\ map redact (trace (snd p1)) = map redact (trace (snd p2)))
  /\ (fst q1 = fst q2
      /\ disk (snd q1) = disk s /\ disk (snd q2) = disk s
      /\ map redact (trace (snd q1)) = map redact (trace (snd q2))).
Proof.
  intros Hdocs Hquery Hchat p1 p2 q1 q2. split.
  - subst p1 p2. rewrite !process_run. cbv zeta.
    destruct (get_pdf_text pdf_docs) as [e|raw_text]; [auto|].
    rewrite (Hdocs _ (get_text_chunks raw_text)).
    destruct (api_embed_documents W _ key2 _) as [e|embeddings];
      [|destruct (faiss_new_index W embeddings) as [e|index]];
      cbn [fst snd add_events disk trace];
      rewrite ?map_app; cbn [map redact]; auto.
  - subst q1 q2. rewrite !user_input_disk. rewrite !user_input_run. cbv zeta.
    destruct (faiss_read W (disk s) "faiss_index") as [e|data].
    + destruct (is_FileNotFoundError e); [|destruct (is_ValueError e)];
        cbn [fst snd add_events disk trace]; auto.
    + rewrite (Hquery _ user_question).
      destruct (api_embed_query W _ key2 user_question) as [e|embedding];
        [|rewrite (Hchat _ _ (filled_prompt _ _));
          destruct (api_generate W _ _ key2 _) as [e|answer]];
        cbn [fst snd add_events disk trace];
        rewrite ?map_app; cbn [map redact]; auto.
Qed.

(** C9. The splitter returns no chunk for the empty string, so a
    processing run over documents without extractable text asks the
    embedding service for the vectors of no chunk at all, and an index
    it saves has an empty document store. *)
Theorem no_text_indexes_no_chunk (pdf_docs : list UploadedFile)
    (api_key : string) (s : State) :
  get_text_chunks "" = []
  /\ (forallb opens pdf_docs = true ->
      forallb no_text pdf_docs = true ->
      exists evs,
        trace (snd (process W pdf_docs api_key s))
          = trace s ++
              st_spinner "Processing..."
              :: call_embed_documents "models/embedding-001" api_key []
              :: evs
        /\ (fst (process W pdf_docs api_key s) = inr tt ->
            exists index,
              disk (snd (process W pdf_docs api_key s)) !! "faiss_index"
              = Some {| stored_index := index; stored_docstore := [] |})).
Proof.
  assert (Hempty : get_text_chunks "" = []) by (vm_compute; reflexivity).
  split; [exact Hempty|]. intros Hopen Hnone.
  rewrite process_run. cbv zeta.
  rewrite (get_pdf_text_no_text pdf_docs Hopen Hnone), Hempty.
  destruct (api_embed_documents W _ api_key []) as [e|embeddings];
    [|destruct (faiss_new_index W embeddings) as [e|index]];
    cbn [fst snd add_events disk trace]; rewrite <- ?app_assoc; cbn [app];
    eexists; (split; [reflexivity|]); try discriminate.
  intros _. exists index. now rewrite lookup_insert_eq.
Qed.

End Persistence.

Lemma index_overwritten_at_fixed_path_witness :
  disk (snd (main demo_world report_form indexed_state)) !! "notes.txt"
    = disk indexed_state !! "notes.txt"
  /\ exists raw_text embeddings index,
       get_pdf_text (pdf_docs report_form) = inr raw_text
       /\ api_embed_documents demo_world "models/embedding-001" "secret"
            (get_text_chunks raw_text) = inr embeddings
       /\ faiss_new_index demo_world embeddings = inr index
       /\ disk (snd (process demo_world (pdf_docs report_form) "secret"
                       indexed_state))
          = <["faiss_index" :=
                {| stored_index := index;
                   stored_docstore := get_text_chunks raw_text |}]>
              (disk indexed_state).
Proof.
  destruct (index_overwritten_at_fixed_path demo_world report_form
              (pdf_docs report_form) "secret" indexed_state) as [H1 H2].
  split; [apply H1; discriminate | apply H2; vm_compute; reflexivity].
Defined.

(** C6, the claim as stated fails: a processing run that stops on a
    file the parser cannot read writes no index; the index stored
    before is still there, not overwritten. *)
Lemma process_failure_writes_no_index :
  fst (process demo_world [corrupt_upload] "secret" indexed_state)
    = inl (mkExn (OtherException "PdfReadError") "EOF marker not found")
  /\ disk (snd (process demo_world [corrupt_upload] "secret" indexed_state))
       !! "faiss_index"
     = Some report_index
  /\ ~ In (call_save_local "faiss_index")
         (trace (snd (process demo_world [corrupt_upload] "secret"
                        indexed_state))).
Proof.
  rewrite (process_run demo_world [corrupt_upload] "secret" indexed_state).
  cbv zeta.
  change (get_pdf_text [corrupt_upload])
    with (@inl Exn string
            (mkExn (OtherException "PdfReadError") "EOF marker not found")).
  cbn [fst snd add_events disk trace indexed_state app].
  split; [reflexivity|]. split; [apply lookup_singleton_eq|].
  intros [H | []]. discriminate H.
Qed.

(** C4, the claim as stated fails: when the stored index file is of a
    format the installed faiss does not read, the loader raises
    [RuntimeError], which [user_input] does not catch.  The query ends
    with the exception and no message is shown. *)
Lemma user_input_format_mismatch_raises :
  user_input mismatch_world "What is the revenue?" "secret" indexed_state
  = (inl (mkExn (OtherException "RuntimeError")
            "Index type 0x73726576 not recognized"),
     {| disk := disk indexed_state;
        trace := [logger_info "Loading vector store...";
                  call_load_local "faiss_index"] |}).
Proof.
  rewrite (user_input_run mismatch_world). cbv zeta.
  change (faiss_read mismatch_world (disk indexed_state) "faiss_index")
    with (match disk indexed_state !! "faiss_index" with
          | Some _ =>
              @inl Exn IndexData
                (mkExn (OtherException "RuntimeError")
                   "Index type 0x73726576 not recognized")
          | None =>
              faiss_read demo_world (disk indexed_state) "faiss_index"
          end).
  cbn [indexed_state disk]. rewrite lookup_singleton_eq. reflexivity.
Qed.

Lemma api_key_reaches_hosted_apis_only_witness :
  disk (snd (process demo_world (pdf_docs report_form) "key-one" fresh_state))
    = disk (snd (process demo_world (pdf_docs report_form) "key-two"
                   fresh_state))
  /\ map redact
       (trace (snd (user_input demo_world "What?" "key-one" indexed_state)))
     = map redact
         (trace (snd (user_input demo_world "What?" "key-two" indexed_state))).
Proof.
  split.
  - exact (proj1 (proj2 (proj1
             (api_key_reaches_hosted_apis_only demo_world
                (pdf_docs report_form) "What?" "key-one" "key-two" fresh_state
                (fun _ _ => eq_refl) (fun _ _ => eq_refl)
                (fun _ _ _ => eq_refl))))).
  - exact (proj2 (proj2 (proj2 (proj2
             (api_key_reaches_hosted_apis_only demo_world
                (pdf_docs report_form) "What?" "key-one" "key-two"
                indexed_state
                (fun _ _ => eq_refl) (fun _ _ => eq_refl)
                (fun _ _ _ => eq_refl)))))).
Defined.

Lemma no_text_indexes_no_chunk_witness :
  exists evs,
    trace (snd (process demo_world [scanned_upload] "secret" fresh_state))
      = trace fresh_state ++
          st_spinner "Processing..."
          :: call_embed_documents "models/embedding-001" "secret" []
          :: evs
    /\ (fst (process demo_world [scanned_upload] "secret" fresh_state) = inr tt ->
        exists index,
          disk (snd (process demo_world [scanned_upload] "secret" fresh_state))
            !! "faiss_index"
          = Some {| stored_index := index; stored_docstore := [] |}).
Proof.
  exact (proj2 (no_text_indexes_no_chunk demo_world [scanned_upload] "secret"
                  fresh_state) eq_refl eq_refl).
Defined.

(* ================================================================== *)
(** ** What the form lets run *)
(* ================================================================== *)

Section Guards.
Variable W : World.

Lemma truthy_ne (a : string) : truthy a = true -> a <> "".
Proof. destruct a; [discriminate | discriminate]. Qed.

Lemma events_of_trace {A} (m : M A) (s : State) (evs : list Event) :
  trace (snd (m s)) = trace s ++ evs -> events_of m s = evs.
Proof. unfold events_of. intros ->. now rewrite drop_app_length. Qed.



End Guards.


(* ================================================================== *)
(** ** Further properties of the query pipeline *)
(* ================================================================== *)

Section QueryOutcomes.
Variable W : World.

Lemma user_input_events (user_question api_key : string) (s : State) :
  events_of (user_input W user_question api_key) s
  = query_events W user_question api_key s.
Proof.
  apply events_of_trace. rewrite user_input_run. unfold query_events.
  cbv zeta.
  destruct (faiss_read W (disk s) "faiss_index") as [e|data].
  - destruct (is_FileNotFoundError e); [|destruct (is_ValueError e)];
      cbn [snd add_events trace]; (rewrite <- ?app_assoc; reflexivity).
  - destruct (api_embed_query W _ api_key user_question) as [e|embedding];
      [|destruct (api_generate W _ _ api_key _) as [e|answer]];
      cbn [snd add_events trace]; (rewrite <- ?app_assoc; reflexivity).
Qed.

(** X1. A reply is written exactly when the index loads and both hosted
    calls answer, and what is written is "Reply: " with the text the
    chat model returned: the fallback "No response generated." is never
    shown. *)
Theorem reply_written_iff (user_question api_key : string) (s : State)
    (args : list string) :
  In (st_write args) (events_of (user_input W user_question api_key) s)
  <-> exists data embedding answer,
        faiss_read W (disk s) "faiss_index" = inr data
        /\ api_embed_query W "models/embedding-001" api_key user_question
           = inr embedding
        /\ api_generate W "gemini-pro" (3 # 10) api_key
             (filled_prompt
                (join (Langchain.nl +:+ Langchain.nl)
                   (retrieved W data embedding))
                user_question)
           = inr answer
        /\ args = ["Reply: "; answer].
Proof.
  rewrite user_input_events. unfold query_events. split.
  - destruct (faiss_read W (disk s) "faiss_index") as [e|data].
    + destruct (is_FileNotFoundError e); [|destruct (is_ValueError e)];
        cbn [In app]; intuition discriminate.
    + destruct (api_embed_query W _ api_key user_question) as [e|embedding];
        [cbn [In app]; intuition discriminate|].
      cbv zeta.
      destruct (api_generate W _ _ api_key _) as [e|answer] eqn:Hanswer;
        cbn [In app]; [intuition discriminate|].
      intros [H | [H | [H | [H | [H | [H | []]]]]]]; try discriminate.
      injection H as <-. exists data, embedding, answer. auto.
  - intros (data & embedding & answer & -> & -> & Hanswer & ->).
    cbv zeta. rewrite Hanswer. cbn [In app]. auto 10.
Qed.

Lemma length_omap_le {A B} (f : A -> option B) (l : list A) :
  (length (omap f l) <= length l)%nat.
Proof.
  induction l as [|a l IH]; [reflexivity|].
  cbn [omap list_omap]. destruct (f a); cbn [length]; lia.
Qed.

(** X2. Whatever is sent to the chat model in a query is the template
    filled with at most four documents of the loaded index, joined by
    blank lines, and with the user's question; the call goes to
    "gemini-pro" at temperature 0.3 with the key of the query. *)
Theorem query_context_from_index (user_question api_key : string)
    (s : State) (model key prompt : string) (temperature : Q) :
  In (call_generate model temperature key prompt)
    (events_of (user_input W user_question api_key) s) ->
  exists data docs,
    faiss_read W (disk s) "faiss_index" = inr data
    /\ prompt = filled_prompt (join (Langchain.nl +:+ Langchain.nl) docs)
                  user_question
    /\ (length docs <= 4)%nat
    /\ (forall d, In d docs -> In d (stored_docstore data))
    /\ model = "gemini-pro" /\ temperature = 3 # 10 /\ key = api_key.
Proof.
  rewrite user_input_events. unfold query_events.
  destruct (faiss_read W (disk s) "faiss_index") as [e|data].
  { destruct (is_FileNotFoundError e); [|destruct (is_ValueError e)];
      cbn [In app]; intuition discriminate. }
  destruct (api_embed_query W _ api_key user_question) as [e|embedding];
    [cbn [In app]; intuition discriminate|].
  cbv zeta. intros Hin.
  assert (Hgen : call_generate model temperature key prompt
                 = call_generate "gemini-pro" (3 # 10) api_key
                     (filled_prompt
                        (join (Langchain.nl +:+ Langchain.nl)
                           (retrieved W data embedding))
                        user_question)).
  { destruct (api_generate W _ _ api_key _); cbn [In app] in Hin;
      intuition (try discriminate; auto). }
  injection Hgen as -> -> -> ->.
  exists data, (retrieved W data embedding). repeat split.
  - unfold retrieved.
    etransitivity; [apply length_omap_le|]. rewrite length_take. lia.
  - unfold retrieved. intros d Hd. apply list_elem_of_In in Hd.
    apply list_elem_of_omap in Hd as (i & _ & Hi).
    apply list_elem_of_In. now apply list_elem_of_lookup_2 in Hi.
Qed.

End QueryOutcomes.

Lemma query_context_from_index_witness :
  exists data docs,
    faiss_read demo_world (disk indexed_state) "faiss_index" = inr data
    /\ filled_prompt "Annual report." "What is the revenue?"
       = filled_prompt (join (Langchain.nl +:+ Langchain.nl) docs)
           "What is the revenue?"
    /\ (length docs <= 4)%nat
    /\ (forall d, In d docs -> In d (stored_docstore data))
    /\ "gemini-pro" = "gemini-pro" /\ 3 # 10 = 3 # 10 /\ "secret" = "secret".
Proof.
  apply (query_context_from_index demo_world "What is the revenue?" "secret"
           indexed_state "gemini-pro" "secret"
           (filled_prompt "Annual report." "What is the revenue?") (3 # 10)).
  vm_compute. do 4 right. left. reflexivity.
Defined.

(* ================================================================== *)
(** ** Further properties of the processing pipeline *)
(* ================================================================== *)

Section ProcessingOutcomes.
Variable W : World.

Lemma process_events (docs : list UploadedFile) (key : string) (s : State) :
  events_of (process W docs key) s
  = st_spinner "Processing..."
    :: match get_pdf_text docs with
       | inl _ => []
       | inr raw_text =>
           call_embed_documents "models/embedding-001" key
             (get_text_chunks raw_text)
           :: match api_embed_documents W "models/embedding-001" key
                      (get_text_chunks raw_text) with
              | inl _ => []
              | inr embeddings =>
                  match faiss_new_index W embeddings with
                  | inl _ => []
                  | inr _ =>
                      [call_save_local "faiss_index";
                       st_success
                         "Processing complete. You can now ask questions."]
                  end
              end
       end.
Proof.
  apply events_of_trace. rewrite process_run. cbv zeta.
  destruct (get_pdf_text docs) as [e|raw_text];
    [|destruct (api_embed_documents W _ key _) as [e|embeddings];
      [|destruct (faiss_new_index W embeddings) as [e|index]]];
    cbn [snd add_events trace]; rewrite <- ?app_assoc; reflexivity.
Qed.

(** X3. Processing is all or nothing: the index is saved and the
    success message shown exactly when the run completes, and a run
    that raises (unreadable file, failing embedding service, failing
    index construction) leaves persistent storage as it was. *)
Theorem process_all_or_nothing (docs : list UploadedFile) (key : string)
    (s : State) :
  let r := process W docs key s in
  let evs := events_of (process W docs key) s in
  (fst r = inr tt
   <-> In (st_success "Processing complete. You can now ask questions.") evs)
  /\ (fst r = inr tt <-> In (call_save_local "faiss_index") evs)
  /\ (forall e, fst r = inl e -> disk (snd r) = disk s).
Proof.
  cbv zeta. rewrite process_events, process_run. cbv zeta.
  destruct (get_pdf_text docs) as [e|raw_text];
    [|destruct (api_embed_documents W _ key _) as [e|embeddings];
      [|destruct (faiss_new_index W embeddings) as [e|index]]];
    cbn [fst snd add_events disk In];
    (repeat split; try discriminate; try (intuition discriminate); auto).
Qed.

(** X4. Only the last completed processing run matters: after two
    completed runs, storage is what the second run alone would have
    left; nothing of the first index survives. *)
Theorem last_processing_wins (docs1 docs2 : list UploadedFile)
    (key1 key2 : string) (s s1 s2 : State) :
  process W docs1 key1 s = (inr tt, s1) ->
  process W docs2 key2 s1 = (inr tt, s2) ->
  disk s2 = disk (snd (process W docs2 key2 s))
  /\ fst (process W docs2 key2 s) = inr tt.
Proof.
  rewrite !process_run. cbv zeta.
  destruct (get_pdf_text docs1) as [e|text1]; [discriminate|].
  destruct (api_embed_documents W _ key1 _) as [e|vectors1]; [discriminate|].
  destruct (faiss_new_index W vectors1) as [e|index1]; [discriminate|].
  intros [= <-].
  destruct (get_pdf_text docs2) as [e|text2]; [discriminate|].
  destruct (api_embed_documents W _ key2 _) as [e|vectors2]; [discriminate|].
  destruct (faiss_new_index W vectors2) as [e|index2]; [discriminate|].
  intros [= <-]. cbn [fst snd disk]. split; [|reflexivity].
  apply insert_insert_eq.
Qed.

(** X5. Processing followed by a query, when the loader reads back what
    was saved: the query finds the index, and what it sends to the chat
    model is the template filled with the question and with at most
    four of the chunks of the text extracted in the processing run. *)
Theorem query_after_processing (docs : list UploadedFile)
    (key user_question raw_text : string) (embedding : Vector)
    (s s1 : State) :
  reads_back W ->
  process W docs key s = (inr tt, s1) ->
  get_pdf_text docs = inr raw_text ->
  api_embed_query W "models/embedding-001" key user_question
    = inr embedding ->
  exists sent,
    (length sent <= 4)%nat
    /\ (forall d, In d sent -> In d (get_text_chunks raw_text))
    /\ In (call_generate "gemini-pro" (3 # 10) key
             (filled_prompt (join (Langchain.nl +:+ Langchain.nl) sent)
                user_question))
         (events_of (user_input W user_question key) s1)
    /\ ~ In (st_error "Vector store file not found. Please upload and process your PDF files.")
           (events_of (user_input W user_question key) s1).
Proof.
  intros Hback Hrun Htext Hquery.
  rewrite process_run, Htext in Hrun. cbv zeta in Hrun.
  destruct (api_embed_documents W _ key _) as [e|vectors]; [discriminate|].
  destruct (faiss_new_index W vectors) as [e|index]; [discriminate|].
  injection Hrun as <-.
  set (data := {| stored_index := index;
                  stored_docstore := get_text_chunks raw_text |}).
  assert (Hread : faiss_read W
                    (<["faiss_index" := data]> (disk s)) "faiss_index"
                  = inr data)
    by (apply Hback, lookup_insert_eq).
  rewrite user_input_events. unfold query_events. cbn [disk].
  fold data. rewrite Hread, Hquery. cbv zeta.
  exists (retrieved W data embedding). repeat split.
  - unfold retrieved.
    etransitivity; [apply length_omap_le|]. rewrite length_take. lia.
  - unfold retrieved. intros d Hd. apply list_elem_of_In in Hd.
    apply list_elem_of_omap in Hd as (i & _ & Hi).
    apply list_elem_of_In. now apply list_elem_of_lookup_2 in Hi.
  - cbn [In app]. auto 10.
  - destruct (api_generate W _ _ key _); cbn [In app];
      intuition discriminate.
Qed.

End ProcessingOutcomes.

Lemma last_processing_wins_witness :
  disk (snd (process demo_world (pdf_docs report_form) "secret"
               (snd (process demo_world [report_upload] "secret"
                       fresh_state))))
  = disk (snd (process demo_world (pdf_docs report_form) "secret"
                 fresh_state)).
Proof.
  refine (proj1 (last_processing_wins demo_world [report_upload]
                   (pdf_docs report_form) "secret" "secret" fresh_state
                   (snd (process demo_world [report_upload] "secret"
                           fresh_state))
                   (snd (process demo_world (pdf_docs report_form) "secret"
                           (snd (process demo_world [report_upload] "secret"
                                   fresh_state))))
                   _ _)); vm_compute; reflexivity.
Defined.

Lemma query_after_processing_witness :
  exists sent,
    (length sent <= 4)%nat
    /\ (forall d, In d sent -> In d (get_text_chunks "Annual report."))
    /\ In (call_generate "gemini-pro" (3 # 10) "secret"
             (filled_prompt (join (Langchain.nl +:+ Langchain.nl) sent)
                "What is the revenue?"))
         (events_of (user_input demo_world "What is the revenue?" "secret")
            (snd (process demo_world (pdf_docs report_form) "secret"
                    fresh_state)))
    /\ ~ In (st_error "Vector store file not found. Please upload and process your PDF files.")
           (events_of (user_input demo_world "What is the revenue?" "secret")
              (snd (process demo_world (pdf_docs report_form) "secret"
                      fresh_state))).
Proof.
  apply (query_after_processing demo_world (pdf_docs report_form) "secret"
           "What is the revenue?" "Annual report." [20] fresh_state).
  - intros files path data Hdata. cbn. now rewrite Hdata.
  - vm_compute. reflexivity.
  - reflexivity.
  - reflexivity.
Defined.

(* ================================================================== *)
(** ** Further properties of the script *)
(* ================================================================== *)

Section ScriptOutcomes.
Variable W : World.

(** X6. An exception of the index loader that is neither a
    [FileNotFoundError] nor a [ValueError] is not handled: the script
    stops with it right after the load attempt, shows no message, does
    not reach the sidebar and processes nothing, also when the process
    button was pressed with files uploaded; storage is unchanged. *)
Theorem main_aborts_on_unexpected_load_error (form : Form) (s : State)
    (e : Exn) :
  truthy (user_question form) = true ->
  truthy (api_key form) = true ->
  faiss_read W (disk s) "faiss_index" = inl e ->
  is_FileNotFoundError e = false ->
  is_ValueError e = false ->
  main W form s
  = (inl e,
     add_events s [st_header "AI Clone Chatbot 💁";
                   logger_info "Loading vector store...";
                   call_load_local "faiss_index"]).
Proof.
  intros Hq Hk Hread Hnf Hve.
  rewrite main_run, Hq, Hk. cbv zeta. cbn [andb].
  rewrite user_input_run. cbv zeta. cbn [add_events disk].
  rewrite Hread, Hnf, Hve. unfold add_events. cbn [disk trace].
  now rewrite <- app_assoc.
Qed.

(** X7. The question of a run is answered before the sidebar is
    handled, so from the index that was stored before the run.  When a
    question is submitted together with files to process, the stored
    index loads and the hosted services answer, the reply is written
    from the documents of the stored index, and the files are processed
    after it, in the same run. *)
Theorem question_answered_before_processing (form : Form) (s : State)
    (data : IndexData) (embedding : Vector) (answer : string) :
  let prompt :=
    filled_prompt
      (join (Langchain.nl +:+ Langchain.nl) (retrieved W data embedding))
      (user_question form) in
  truthy (user_question form) = true ->
  truthy (api_key form) = true ->
  process_button form = true ->
  pdf_docs form <> [] ->
  faiss_read W (disk s) "faiss_index" = inr data ->
  api_embed_query W "models/embedding-001" (api_key form) (user_question form)
    = inr embedding ->
  api_generate W "gemini-pro" (3 # 10) (api_key form) prompt = inr answer ->
  main W form s
  = process W (pdf_docs form) (api_key form)
      (add_events s
         [st_header "AI Clone Chatbot 💁";
          logger_info "Loading vector store...";
          call_load_local "faiss_index";
          logger_info "Vector store loaded successfully.";
          call_embed_query "models/embedding-001" (api_key form)
            (user_question form);
          call_generate "gemini-pro" (3 # 10) (api_key form) prompt;
          st_write ["Reply: "; answer];
          st_title "Menu:"]).
Proof.
  intros prompt Hq Hk Hb Hdocs Hread Hquery Hanswer.
  rewrite main_run, Hq, Hk, Hb. cbv zeta. cbn [andb].
  rewrite user_input_run. cbv zeta. cbn [add_events disk].
  rewrite Hread, Hquery. fold prompt. rewrite Hanswer.
  destruct (pdf_docs form) as [|pdf docs]; [now destruct Hdocs|].
  cbn [Py.nonempty]. f_equal. unfold add_events. cbn [disk trace].
  now rewrite <- !app_assoc.
Qed.

(** X8. Without the process button, without a key or without an
    uploaded file, a run of the script leaves persistent storage
    exactly as it was, whatever the question and the services do. *)
Theorem main_without_processing_keeps_storage (form : Form) (s : State) :
  process_button form = false \/ api_key form = "" \/ pdf_docs form = [] ->
  disk (snd (main W form s)) = disk s.
Proof.
  intros Hno. rewrite main_run. cbv zeta.
  set (s0 := add_events s _).
  assert (Hq : disk (snd (if truthy (user_question form)
                             && truthy (api_key form)
                          then user_input W (user_question form)
                                 (api_key form) s0
                          else (inr tt, s0))) = disk s).
  { destruct (_ && _); [now rewrite user_input_disk | reflexivity]. }
  destruct (if _ && _ then _ else _) as [[e|u] s1]; cbn [snd] in Hq |- *;
    [exact Hq|].
  destruct (process_button form && truthy (api_key form)) eqn:Hp;
    [|exact Hq].
  apply andb_prop in Hp as [Hb Hk].
  destruct Hno as [Hno | [Hno | Hno]].
  - rewrite Hb in Hno. discriminate.
  - rewrite Hno in Hk. discriminate.
  - rewrite Hno. cbn [Py.nonempty snd add_events disk]. exact Hq.
Qed.

(** The events of a run: the header, the events of the query if there
    is one, then what the sidebar adds. *)
Lemma main_events (form : Form) (s : State) :
  exists q_evs p_evs,
    events_of (main W form) s
      = st_header "AI Clone Chatbot 💁" :: q_evs ++ p_evs
    /\ (q_evs = []
        \/ q_evs = query_events W (user_question form) (api_key form) s)
    /\ (p_evs = []
        \/ p_evs = [st_title "Menu:"]
        \/ p_evs = [st_title "Menu:";
                    st_error "Please upload at least one PDF file."]
        \/ exists s2,
             p_evs = st_title "Menu:"
                     :: events_of (process W (pdf_docs form) (api_key form))
                          s2).
Proof.
  set (s0 := add_events s [st_header "AI Clone Chatbot 💁"]).
  assert (Hq : exists q_evs,
             snd (if truthy (user_question form) && truthy (api_key form)
                  then user_input W (user_question form) (api_key form) s0
                  else (inr tt, s0)) = add_events s0 q_evs
             /\ (q_evs = []
                 \/ q_evs = query_events W (user_question form)
                              (api_key form) s)).
  { destruct (_ && _).
    - destruct (user_input_appends W (user_question form) (api_key form) s0)
        as (q_evs & Hs & _).
      exists q_evs. split; [exact Hs|]. right.
      change (query_events W (user_question form) (api_key form) s)
        with (query_events W (user_question form) (api_key form) s0).
      rewrite <- (user_input_events W (user_question form) (api_key form) s0).
      symmetry. apply events_of_trace. now rewrite Hs.
    - exists []. split; [|now left]. unfold add_events. cbn [snd].
      now rewrite app_nil_r. }
  destruct Hq as (q_evs & Hs1 & Hq). exists q_evs.
  assert (Hevs : forall p_evs,
             trace (snd (main W form s))
             = trace (add_events s0 q_evs) ++ p_evs ->
             events_of (main W form) s
             = st_header "AI Clone Chatbot 💁" :: q_evs ++ p_evs).
  { intros p_evs H. apply events_of_trace. rewrite H. subst s0.
    cbn [add_events trace]. rewrite <- !app_assoc. reflexivity. }
  rewrite main_run in Hevs. cbv zeta in Hevs. fold s0 in Hevs.
  destruct (if _ && _ then _ else _) as [r s1]. cbn [snd] in Hs1. subst s1.
  destruct r as [e|u].
  { exists []. split; [|split; [exact Hq | now left]].
    apply Hevs. cbn [snd]. now rewrite app_nil_r. }
  destruct (process_button form && truthy (api_key form)).
  2:{ exists [st_title "Menu:"]. split; [|split; [exact Hq | auto]].
      apply Hevs. reflexivity. }
  destruct (Py.nonempty (pdf_docs form)).
  2:{ exists [st_title "Menu:";
              st_error "Please upload at least one PDF file."].
      split; [|split; [exact Hq | auto]].
      apply Hevs. cbn [snd add_events trace]. now rewrite <- app_assoc. }
  set (s2 := add_events (add_events s0 q_evs) [st_title "Menu:"]) in *.
  exists (st_title "Menu:"
          :: events_of (process W (pdf_docs form) (api_key form)) s2).
  split; [|split; [exact Hq | right; right; right; now exists s2]].
  apply Hevs.
  destruct (process_appends W (pdf_docs form) (api_key form) s2)
    as (evs & Htrace & _).
  rewrite (events_of_trace _ _ _ Htrace), Htrace.
  subst s2. cbn [add_events trace]. now rewrite <- app_assoc.
Qed.

(** X9. Every outside call of a run is configured the same way: texts
    and questions are embedded by "models/embedding-001", the chat
    model is "gemini-pro" at temperature 0.3, every hosted call carries
    the key of the form, and the index is loaded from and saved to
    "faiss_index" and nowhere else. *)
Theorem main_calls_are_configured (form : Form) (s : State) (ev : Event) :
  In ev (events_of (main W form) s) ->
  match ev with
  | call_embed_documents model key _ | call_embed_query model key _ =>
      model = "models/embedding-001" /\ key = api_key form
  | call_generate model temperature key _ =>
      model = "gemini-pro" /\ temperature = 3 # 10 /\ key = api_key form
  | call_load_local path | call_save_local path => path = "faiss_index"
  | _ => True
  end.
Proof.
  destruct (main_events form s) as (q_evs & p_evs & -> & Hq & Hp).
  intros [<- | Hin]; [exact I|].
  apply in_app_or in Hin as [Hin | Hin].
  - destruct Hq as [-> | ->]; [destruct Hin|].
    unfold query_events in Hin.
    destruct (faiss_read W (disk s) "faiss_index") as [e|data].
    + destruct (is_FileNotFoundError e); [|destruct (is_ValueError e)];
        cbn [In app] in Hin;
        repeat (destruct Hin as [<- | Hin]; [now auto|]); destruct Hin.
    + destruct (api_embed_query W _ _ _) as [e|embedding];
        [|cbv zeta in Hin; destruct (api_generate W _ _ _ _) as [e|answer]];
        cbn [In app] in Hin;
        repeat (destruct Hin as [<- | Hin]; [now auto|]); destruct Hin.
  - destruct Hp as [-> | [-> | [-> | [s2 ->]]]]; cbn [In] in Hin.
    + destruct Hin.
    + destruct Hin as [<- | []]. exact I.
    + destruct Hin as [<- | [<- | []]]; exact I.
    + destruct Hin as [<- | Hin]; [exact I|].
      rewrite process_events in Hin.
      destruct (get_pdf_text (pdf_docs form)) as [e|raw_text];
        [|destruct (api_embed_documents W _ _ _) as [e|embeddings];
          [|destruct (faiss_new_index W embeddings) as [e|index]]];
        cbn [In] in Hin;
        repeat (destruct Hin as [<- | Hin]; [now auto|]); destruct Hin.
Qed.

End ScriptOutcomes.

Lemma main_aborts_on_unexpected_load_error_witness :
  main broken_world question_form fresh_state
  = (inl (mkExn (OtherException "RuntimeError") "could not open index.faiss"),
     add_events fresh_state
       [st_header "AI Clone Chatbot 💁";
        logger_info "Loading vector store...";
        call_load_local "faiss_index"]).
Proof.
  apply (main_aborts_on_unexpected_load_error broken_world question_form
           fresh_state); reflexivity.
Defined.

Lemma question_answered_before_processing_witness :
  main demo_world question_form indexed_state
  = process demo_world (pdf_docs question_form) "secret"
      (add_events indexed_state
         [st_header "AI Clone Chatbot 💁";
          logger_info "Loading vector store...";
          call_load_local "faiss_index";
          logger_info "Vector store loaded successfully.";
          call_embed_query "models/embedding-001" "secret"
            "What is the revenue?";
          call_generate "gemini-pro" (3 # 10) "secret"
            (filled_prompt "Annual report." "What is the revenue?");
          st_write ["Reply: "; "answer is not available in the context."];
          st_title "Menu:"]).
Proof.
  apply (question_answered_before_processing demo_world question_form
           indexed_state report_index [20]
           "answer is not available in the context.");
    (reflexivity || discriminate).
Defined.

Lemma main_without_processing_keeps_storage_witness :
  disk (snd (main demo_world empty_upload_form indexed_state))
  = disk indexed_state.
Proof.
  apply (main_without_processing_keeps_storage demo_world empty_upload_form
           indexed_state).
  right. right. reflexivity.
Defined.

Lemma main_calls_are_configured_witness :
  "models/embedding-001" = "models/embedding-001"
  /\ "secret" = api_key question_form.
Proof.
  apply (main_calls_are_configured demo_world question_form indexed_state
           (call_embed_documents "models/embedding-001" "secret"
              ["Annual report."])).
  vm_compute. do 9 right. left. reflexivity.
Defined.

(* ================================================================== *)
(** ** Further properties of text extraction *)
(* ================================================================== *)

Section ExtractionOutcomes.

Lemma get_pdf_text_loop (docs : list UploadedFile) :
  get_pdf_text docs = for_each docs EmptyString document_step.
Proof. reflexivity. Qed.

(** A loop over two lists in a row. *)
Lemma for_each_app {A} (l1 l2 : list A) (text : string)
    (body : string -> A -> Result string) :
  for_each (l1 ++ l2) text body
  = (text' ← for_each l1 text body; for_each l2 text' body).
Proof.
  revert text. induction l1 as [|a l1 IH]; intros text; [reflexivity|].
  cbn [app for_each]. destruct (body text a) as [e|text']; [reflexivity|].
  cbn [mbind Result_bind]. apply IH.
Qed.

Lemma page_step_eq (text : string) (page : PageObject) :
  page_step text page
  = match extract_text page with
    | inl e => inl e
    | inr extracted => inr (text +:+ default "" extracted)
    end.
Proof. unfold page_step. now destruct (extract_text page). Qed.

Lemma document_step_eq (text : string) (pdf : UploadedFile) :
  document_step text pdf
  = match PdfReader pdf with
    | inl e => inl e
    | inr pages => for_each pages text page_step
    end.
Proof. unfold document_step. now destruct (PdfReader pdf). Qed.

(** The loop over the pages from an accumulated text is the loop from
    the empty text, appended to it. *)
Lemma pages_loop_from (pages : list PageObject) (text : string) :
  for_each pages text page_step
  = (more ← for_each pages EmptyString page_step; mret (text +:+ more)).
Proof.
  revert text. induction pages as [|page pages IH]; intros text.
  - cbn. now rewrite append_nil_r.
  - cbn [for_each]. rewrite !page_step_eq.
    destruct (extract_text page) as [e|extracted]; [reflexivity|].
    cbn [mbind Result_bind mret Result_ret].
    rewrite (IH (text +:+ default "" extracted)).
    rewrite (IH ("" +:+ default "" extracted)).
    destruct (for_each pages "" page_step) as [e|more]; [reflexivity|].
    cbn [mbind Result_bind mret Result_ret].
    now rewrite append_nil_l, append_assoc.
Qed.

Lemma documents_loop_from (docs : list UploadedFile) (text : string) :
  for_each docs text document_step
  = (more ← for_each docs EmptyString document_step; mret (text +:+ more)).
Proof.
  revert text. induction docs as [|pdf docs IH]; intros text.
  - cbn. now rewrite append_nil_r.
  - cbn [for_each]. rewrite !document_step_eq.
    destruct (PdfReader pdf) as [e|pages]; [reflexivity|].
    rewrite (pages_loop_from pages text).
    destruct (for_each pages "" page_step) as [e|page_text]; [reflexivity|].
    cbn [mbind Result_bind mret Result_ret].
    rewrite (IH (text +:+ page_text)), (IH page_text).
    destruct (for_each docs "" document_step) as [e|more]; [reflexivity|].
    cbn [mbind Result_bind mret Result_ret].
    now rewrite append_assoc.
Qed.

(** X10. Extraction distributes over the list of uploads: the text of
    two batches of files is the text of the first followed by the text
    of the second, and if a file or a page of either batch makes the
    parser raise, the first such exception, in upload order, is what
    [get_pdf_text] raises. *)
Theorem get_pdf_text_app (docs1 docs2 : list UploadedFile) :
  get_pdf_text (docs1 ++ docs2)
  = (text1 ← get_pdf_text docs1;
     text2 ← get_pdf_text docs2;
     mret (text1 +:+ text2)).
Proof.
  rewrite !get_pdf_text_loop, for_each_app.
  destruct (for_each docs1 "" document_step) as [e|text1]; [reflexivity|].
  cbn [mbind Result_bind]. apply documents_loop_from.
Qed.

End ExtractionOutcomes.

(* ================================================================== *)
(** ** The exceptions of a query *)
(* ================================================================== *)

Section QueryExceptions.
Variable W : World.

(** X14. A query raises in three cases only: the loader raised
    something other than a [FileNotFoundError] or a [ValueError], the
    embedding of the question failed, or the chat model failed; the
    exception is then the one of that call.  The two handled loader
    errors never leave [user_input]. *)
Theorem user_input_raises_iff (user_question api_key : string) (s : State)
    (e : Exn) :
  fst (user_input W user_question api_key s) = inl e
  <-> (faiss_read W (disk s) "faiss_index" = inl e
       /\ is_FileNotFoundError e = false /\ is_ValueError e = false)
      \/ (exists data,
            faiss_read W (disk s) "faiss_index" = inr data
            /\ (api_embed_query W "models/embedding-001" api_key
                  user_question = inl e
                \/ exists embedding,
                     api_embed_query W "models/embedding-001" api_key
                       user_question = inr embedding
                     /\ api_generate W "gemini-pro" (3 # 10) api_key
                          (filled_prompt
                             (join (Langchain.nl +:+ Langchain.nl)
                                (retrieved W data embedding))
                             user_question) = inl e)).
Proof.
  rewrite user_input_run. cbv zeta.
  destruct (faiss_read W (disk s) "faiss_index") as [e0|data].
  - destruct (is_FileNotFoundError e0) eqn:Hnf;
      [|destruct (is_ValueError e0) eqn:Hve]; cbn [fst]; split.
    + discriminate.
    + intros [([= ->] & Hnf' & _) | (data & Hread & _)]; congruence.
    + discriminate.
    + intros [([= ->] & _ & Hve') | (data & Hread & _)]; congruence.
    + intros [= ->]. left. auto.
    + intros [([= ->] & _) | (data & Hread & _)]; [reflexivity|discriminate].
  - destruct (api_embed_query W _ api_key user_question) as [e1|embedding].
    + cbn [fst]. split.
      * intros [= ->]. right. exists data. auto.
      * intros [(Hread & _) | (data' & Hread & [[= ->] | (v & Hq & _)])];
          [discriminate | reflexivity | discriminate].
    + destruct (api_generate W _ _ api_key _) as [e2|answer] eqn:Hgen;
        cbn [fst]; split.
      * intros [= ->]. right. exists data. split; [reflexivity|].
        right. exists embedding. auto.
      * intros [(Hread & _) | (data' & [= <-] & [Hq | (v & [= <-] & Hg)])];
          [discriminate | discriminate |].
        rewrite Hgen in Hg. now injection Hg as ->.
      * discriminate.
      * intros [(Hread & _) | (data' & [= <-] & [Hq | (v & [= <-] & Hg)])];
          [discriminate | discriminate |].
        rewrite Hgen in Hg. discriminate.
Qed.

End QueryExceptions.

Lemma user_input_raises_iff_witness :
  fst (user_input broken_world "What is the revenue?" "secret" fresh_state)
  = inl (mkExn (OtherException "RuntimeError") "could not open index.faiss").
Proof.
  apply (user_input_raises_iff broken_world "What is the revenue?" "secret"
           fresh_state).
  left. repeat split.
Defined.

Lemma reply_written_iff_witness :
  In (st_write ["Reply: "; "answer is not available in the context."])
    (events_of (user_input demo_world "What is the revenue?" "secret")
       indexed_state).
Proof.
  apply (reply_written_iff demo_world "What is the revenue?" "secret"
           indexed_state).
  exists report_index, [20], "answer is not available in the context.".
  repeat split.
Defined.

Lemma process_all_or_nothing_witness :
  disk (snd (process demo_world [report_upload; corrupt_upload] "secret"
               indexed_state))
  = disk indexed_state.
Proof.
  apply (proj2 (proj2 (process_all_or_nothing demo_world
                         [report_upload; corrupt_upload] "secret"
                         indexed_state))
           (mkExn (OtherException "PdfReadError") "EOF marker not found")).
  reflexivity.
Defined.

(* ================================================================== *)
(** ** Characters and white space *)
(* ================================================================== *)

Section Characters.

(** What [chars] does with one more byte in front. *)
Lemma chars_cons (b : ascii) (rest : string) :
  chars (String b rest)
  = match chars rest with
    | String b' c :: cs =>
        if is_continuation b' then String b (String b' c) :: cs
        else String b "" :: String b' c :: cs
    | cs => String b "" :: cs
    end.
Proof. reflexivity. Qed.

(** Putting the characters of a string together gives the string. *)
Lemma concat_strings_chars (text : string) :
  concat_strings (chars text) = text.
Proof.
  induction text as [|b text IH]; [reflexivity|].
  rewrite chars_cons. destruct (chars text) as [|[|b' c] cs].
  - cbn in IH. now subst text.
  - rewrite !concat_strings_cons in *. rewrite append_cons, append_nil_l.
    now rewrite <- IH.
  - destruct (is_continuation b');
      rewrite !concat_strings_cons in *; rewrite ?append_cons, ?append_nil_l;
      now rewrite <- IH.
Qed.

Lemma proper_canonical (cs : list string) :
  forallb proper cs = true -> canonical cs.
Proof.
  destruct cs as [|c rest]; [exact (fun _ => I)|].
  cbn [forallb canonical]. intros H. apply andb_prop in H as [Hc Hrest].
  split; [|exact Hrest].
  destruct c as [|b tail]; [discriminate|]. cbn [proper] in Hc.
  apply andb_prop in Hc as [_ Htail]. now exists b, tail.
Qed.

Lemma chars_canonical (text : string) : canonical (chars text).
Proof.
  induction text as [|b text IH]; [exact I|].
  rewrite chars_cons. destruct (chars text) as [|c cs].
  - split; [now exists b, "" | reflexivity].
  - destruct IH as [(b0 & tail & -> & Htail) Hcs].
    destruct (is_continuation b0) eqn:Hb0.
    + split; [|exact Hcs]. exists b, (String b0 tail). split; [reflexivity|].
      cbn [list_ascii_of_string forallb]. now rewrite Hb0, Htail.
    + split; [now exists b, ""|].
      cbn [forallb proper]. now rewrite Hb0, Htail, Hcs.
Qed.

Lemma len_continuation (tail : string) :
  forallb is_continuation (list_ascii_of_string tail) = true -> len tail = 0.
Proof.
  induction tail as [|b tail IH]; [reflexivity|].
  cbn [list_ascii_of_string forallb]. intros H.
  apply andb_prop in H as [Hb Htail]. rewrite len_cons, Hb, IH by exact Htail.
  reflexivity.
Qed.

Lemma len_proper (c : string) : proper c = true -> len c = 1.
Proof.
  destruct c as [|b tail]; [discriminate|]. cbn [proper]. intros H.
  apply andb_prop in H as [Hb Htail]. apply negb_true_iff in Hb.
  now rewrite len_cons, Hb, (len_continuation tail Htail).
Qed.

(** A character counts for one, stray continuation bytes for none. *)
Lemma len_chars (text c : string) : In c (chars text) -> 0 <= len c <= 1.
Proof.
  pose proof (chars_canonical text) as Hcan.
  destruct (chars text) as [|c0 cs]; [intros []|].
  destruct Hcan as [(b & tail & -> & Htail) Hcs].
  intros [<- | Hin].
  - rewrite len_cons, (len_continuation tail Htail).
    destruct (is_continuation b); lia.
  - rewrite forallb_forall in Hcs. rewrite (len_proper c (Hcs c Hin)). lia.
Qed.

(** The characters of well-formed characters put together are these
    characters. *)
Lemma chars_continuation_app (tail text : string) :
  tail <> "" ->
  forallb is_continuation (list_ascii_of_string tail) = true ->
  match chars text with
  | String b _ :: _ => is_continuation b = false
  | [] => True
  | EmptyString :: _ => False
  end ->
  chars (tail +:+ text) = tail :: chars text.
Proof.
  intros Hne Htail Hlead. induction tail as [|t tail IH]; [congruence|].
  cbn [list_ascii_of_string forallb] in Htail.
  apply andb_prop in Htail as [Ht Htail].
  rewrite append_cons, chars_cons. destruct tail as [|t' tail'].
  - rewrite append_nil_l. destruct (chars text) as [|[|b c] cs];
      [reflexivity | destruct Hlead | now rewrite Hlead].
  - rewrite IH by (congruence || exact Htail).
    cbn [list_ascii_of_string forallb] in Htail.
    apply andb_prop in Htail as [Ht' _]. now rewrite Ht'.
Qed.

Lemma chars_char_app (b : ascii) (tail text : string) :
  forallb is_continuation (list_ascii_of_string tail) = true ->
  match chars text with
  | String b' _ :: _ => is_continuation b' = false
  | [] => True
  | EmptyString :: _ => False
  end ->
  chars (String b tail +:+ text) = String b tail :: chars text.
Proof.
  intros Htail Hlead. rewrite append_cons, chars_cons.
  destruct tail as [|t tail'].
  - rewrite append_nil_l. destruct (chars text) as [|[|b' c] cs];
      [reflexivity | destruct Hlead | now rewrite Hlead].
  - rewrite chars_continuation_app by (congruence || assumption).
    cbn [list_ascii_of_string forallb] in Htail.
    apply andb_prop in Htail as [Ht _]. now rewrite Ht.
Qed.

Lemma chars_proper (cs : list string) :
  forallb proper cs = true -> chars (concat_strings cs) = cs.
Proof.
  induction cs as [|c cs IH]; [reflexivity|].
  cbn [forallb]. intros H. apply andb_prop in H as [Hc Hcs].
  specialize (IH Hcs). rewrite concat_strings_cons.
  destruct c as [|b tail]; [discriminate|]. cbn [proper] in Hc.
  apply andb_prop in Hc as [_ Htail].
  rewrite chars_char_app; [now rewrite IH | exact Htail |].
  rewrite IH. destruct cs as [|[|b' tail'] cs']; [exact I | discriminate |].
  cbn [forallb proper] in Hcs.
  apply andb_prop in Hcs as [Hc' _]. apply andb_prop in Hc' as [Hb' _].
  now apply negb_true_iff in Hb'.
Qed.

Lemma chars_of_canonical (cs : list string) :
  canonical cs -> chars (concat_strings cs) = cs.
Proof.
  destruct cs as [|c rest]; [reflexivity|].
  intros [(b & tail & -> & Htail) Hrest].
  rewrite concat_strings_cons, chars_char_app;
    rewrite ?(chars_proper rest Hrest); [reflexivity | exact Htail |].
  destruct rest as [|[|b' tail'] cs']; [exact I | discriminate |].
  cbn [forallb proper] in Hrest.
  apply andb_prop in Hrest as [Hc' _]. apply andb_prop in Hc' as [Hb' _].
  now apply negb_true_iff in Hb'.
Qed.

(** ** Stripping *)

Lemma lstrip_chars_suffix (cs : list string) :
  exists dropped, cs = dropped ++ lstrip_chars cs.
Proof.
  induction cs as [|c cs [dropped IH]]; [now exists []|].
  cbn [lstrip_chars]. destruct (isspace c); [|now exists []].
  exists (c :: dropped). now rewrite <- app_comm_cons, <- IH.
Qed.

Lemma rstrip_chars_prefix (cs : list string) :
  exists dropped, cs = rstrip_chars cs ++ dropped.
Proof.
  induction cs as [|c cs [dropped IH]]; [now exists []|].
  cbn [rstrip_chars]. destruct (rstrip_chars cs) as [|k kept].
  - destruct (isspace c); [now exists (c :: cs)|].
    exists cs. reflexivity.
  - exists dropped. now rewrite <- app_comm_cons, <- IH.
Qed.

Lemma strip_concat (text : string) :
  strip text = concat_strings (rstrip_chars (lstrip_chars (chars text))).
Proof. reflexivity. Qed.

(** The stripped string is a window of the string. *)
Lemma strip_window (a : string) : window (strip a) a.
Proof.
  rewrite strip_concat.
  destruct (lstrip_chars_suffix (chars a)) as [front Hfront].
  destruct (rstrip_chars_prefix (lstrip_chars (chars a))) as [back Hback].
  exists (concat_strings front), (concat_strings back).
  rewrite <- !concat_strings_app, <- Hback, <- Hfront.
  now rewrite concat_strings_chars.
Qed.

Lemma len_window (c text : string) : window c text -> len c <= len text.
Proof.
  intros (before & after & ->). rewrite !len_append.
  pose proof (len_nonneg before). pose proof (len_nonneg after). lia.
Qed.

Lemma len_strip (a : string) : len (strip a) <= len a.
Proof. apply len_window, strip_window. Qed.

Lemma lstrip_chars_proper (cs : list string) :
  forallb proper cs = true -> forallb proper (lstrip_chars cs) = true.
Proof.
  intros H. destruct (lstrip_chars_suffix cs) as [dropped Hcs].
  rewrite Hcs, forallb_app in H. now apply andb_prop in H as [_ H].
Qed.

Lemma rstrip_chars_proper (cs : list string) :
  forallb proper cs = true -> forallb proper (rstrip_chars cs) = true.
Proof.
  intros H. destruct (rstrip_chars_prefix cs) as [dropped Hcs].
  rewrite Hcs, forallb_app in H. now apply andb_prop in H as [H _].
Qed.

Lemma lstrip_chars_canonical (cs : list string) :
  canonical cs -> canonical (lstrip_chars cs).
Proof.
  destruct cs as [|c rest]; [exact (fun H => H)|].
  intros [Hc Hrest]. cbn [lstrip_chars].
  destruct (isspace c); [|now split].
  now apply proper_canonical, lstrip_chars_proper.
Qed.

Lemma rstrip_chars_canonical (cs : list string) :
  canonical cs -> canonical (rstrip_chars cs).
Proof.
  destruct cs as [|c rest]; [exact (fun H => H)|].
  intros [Hc Hrest]. cbn [rstrip_chars].
  pose proof (rstrip_chars_proper rest Hrest) as Hkept.
  destruct (rstrip_chars rest) as [|k kept].
  - destruct (isspace c); [exact I | now split].
  - now split.
Qed.

Lemma rstrip_chars_idem (cs : list string) :
  rstrip_chars (rstrip_chars cs) = rstrip_chars cs.
Proof.
  induction cs as [|c cs IH]; [reflexivity|].
  cbn [rstrip_chars]. destruct (rstrip_chars cs) as [|k kept] eqn:Hkept.
  - destruct (isspace c) eqn:Hc; [reflexivity|].
    cbn [rstrip_chars]. now rewrite Hc.
  - change (rstrip_chars (c :: k :: kept))
      with (match rstrip_chars (k :: kept) with
            | [] => if isspace c then [] else [c]
            | kept' => c :: kept'
            end).
    now rewrite IH.
Qed.

(** What is left after dropping the white space in front keeps its
    first character when its end is stripped too. *)
Lemma lstrip_rstrip_chars (cs : list string) :
  lstrip_chars (rstrip_chars (lstrip_chars cs))
  = rstrip_chars (lstrip_chars cs).
Proof.
  assert (Hhead : lstrip_chars cs = []
                  \/ exists c rest, lstrip_chars cs = c :: rest
                                    /\ isspace c = false).
  { induction cs as [|c cs IH]; [now left|].
    cbn [lstrip_chars]. destruct (isspace c) eqn:Hc; [exact IH|].
    right. now exists c, cs. }
  destruct Hhead as [-> | (c & rest & -> & Hc)]; [reflexivity|].
  cbn [rstrip_chars]. destruct (rstrip_chars rest);
    rewrite ?Hc; cbn [lstrip_chars]; now rewrite Hc.
Qed.

(** [s.strip().strip() == s.strip()] *)
Lemma strip_idem (a : string) : strip (strip a) = strip a.
Proof.
  rewrite !strip_concat.
  rewrite chars_of_canonical
    by apply rstrip_chars_canonical, lstrip_chars_canonical, chars_canonical.
  now rewrite lstrip_rstrip_chars, rstrip_chars_idem.
Qed.

Lemma lstrip_chars_plain (cs : list string) :
  forallb plain cs = true -> lstrip_chars cs = cs.
Proof.
  destruct cs as [|c rest]; [reflexivity|]. cbn [forallb lstrip_chars].
  intros H. apply andb_prop in H as [Hc _]. apply andb_prop in Hc as [_ Hc].
  apply negb_true_iff in Hc. now rewrite Hc.
Qed.

Lemma rstrip_chars_plain (cs : list string) :
  forallb plain cs = true -> rstrip_chars cs = cs.
Proof.
  induction cs as [|c rest IH]; [reflexivity|]. cbn [forallb rstrip_chars].
  intros H. apply andb_prop in H as [Hc Hrest].
  apply andb_prop in Hc as [_ Hc]. apply negb_true_iff in Hc.
  rewrite (IH Hrest). destruct rest; [now rewrite Hc | reflexivity].
Qed.

Lemma plain_proper (cs : list string) :
  forallb plain cs = true -> forallb proper cs = true.
Proof.
  intros H. apply forallb_forall. intros c Hc.
  rewrite forallb_forall in H. specialize (H c Hc).
  now apply andb_prop in H as [H _].
Qed.

(** Characters without white space are stripped to themselves. *)
Lemma strip_plain (cs : list string) :
  forallb plain cs = true -> strip (concat_strings cs) = concat_strings cs.
Proof.
  intros H. rewrite strip_concat, (chars_proper cs (plain_proper cs H)).
  now rewrite (lstrip_chars_plain cs H), (rstrip_chars_plain cs H).
Qed.

End Characters.

(* ================================================================== *)
(** ** The splitter: chunk sizes *)
(* ================================================================== *)

Section ChunkSize.
Variables chunk_size chunk_overlap : Z.
Hypothesis chunk_size_gt_1 : 1 < chunk_size.

Lemma total_len_cons (a : string) (l : list string) :
  total_len (a :: l) = len a + total_len l.
Proof. reflexivity. Qed.

Lemma total_len_nonneg (l : list string) : 0 <= total_len l.
Proof.
  induction l as [|a l IH]; [reflexivity|].
  rewrite total_len_cons. pose proof (len_nonneg a). lia.
Qed.

Lemma total_len_app (l1 l2 : list string) :
  total_len (l1 ++ l2) = total_len l1 + total_len l2.
Proof.
  induction l1 as [|a l1 IH]; [reflexivity|].
  rewrite <- app_comm_cons, !total_len_cons, IH. lia.
Qed.

Lemma total_len_snoc (l : list string) (d : string) :
  total_len (l ++ [d]) = total_len l + len d.
Proof.
  rewrite total_len_app, total_len_cons. change (total_len []) with 0. lia.
Qed.

Lemma join_empty_separator (l : list string) : join "" l = concat_strings l.
Proof.
  induction l as [|a [|b l] IH]; [reflexivity| |].
  - cbn [join]. now rewrite concat_strings_cons, append_nil_r.
  - change (join "" (a :: b :: l)) with (a +:+ "" +:+ join "" (b :: l)).
    now rewrite IH, append_nil_l, concat_strings_cons.
Qed.

Lemma len_concat_strings (l : list string) :
  len (concat_strings l) = total_len l.
Proof.
  induction l as [|a l IH]; [reflexivity|].
  rewrite concat_strings_cons, len_append, IH. reflexivity.
Qed.

(** A joined chunk is no longer than the pieces it is made of. *)
Lemma _join_docs_fits (docs : list string) (doc : string) :
  Langchain._join_docs docs "" = Some doc ->
  doc <> "" /\ len doc <= total_len docs.
Proof.
  unfold Langchain._join_docs. rewrite join_empty_separator.
  destruct (truthy (strip (concat_strings docs))) eqn:Htruthy; [|discriminate].
  intros [= <-]. split; [now apply truthy_ne|].
  pose proof (len_strip (concat_strings docs)) as Hstrip.
  now rewrite len_concat_strings in Hstrip.
Qed.

(** After the popping loop the pieces kept sum up to the returned
    total, which is within the overlap, and the next piece fits unless
    nothing is kept. *)
Lemma pop_front_spec (_len : Z) (current_doc : list string) :
  let '(kept, total) :=
    Langchain.pop_front chunk_size chunk_overlap 0 _len current_doc
      (total_len current_doc) in
  total = total_len kept
  /\ (exists popped, current_doc = popped ++ kept)
  /\ (total <= chunk_overlap \/ kept = [])
  /\ (total + _len <= chunk_size \/ total = 0).
Proof.
  induction current_doc as [|d0 rest IH].
  - cbn. repeat split; [now exists [] | now right | now right].
  - cbn [Langchain.pop_front].
    destruct ((chunk_overlap <? total_len (d0 :: rest))
              || ((chunk_size <? total_len (d0 :: rest) + _len + 0)
                  && (0 <? total_len (d0 :: rest)))) eqn:Hcond.
    + replace (total_len (d0 :: rest)
               - (len d0 + (if Py.nonempty rest then 0 else 0)))
        with (total_len rest)
        by (rewrite total_len_cons; destruct (Py.nonempty rest); lia).
      destruct (Langchain.pop_front _ _ _ _ rest _) as [kept total].
      destruct IH as (Htotal & [popped ->] & Hover & Hfit).
      repeat split; auto. now exists (d0 :: popped).
    + apply orb_false_iff in Hcond as [Hover Hfit].
      apply Z.ltb_ge in Hover.
      repeat split; [now exists [] | now left |].
      apply andb_false_iff in Hfit as [Hfit | Hfit];
        [apply Z.ltb_ge in Hfit | apply Z.ltb_ge in Hfit].
      * left. lia.
      * right. pose proof (total_len_nonneg (d0 :: rest)). lia.
Qed.

Lemma no_separator (b : bool) : (if b then 0 else 0) = 0.
Proof. now destruct b. Qed.

(** ** Windows *)

Lemma window_trans (a b c : string) : window a b -> window b c -> window a c.
Proof.
  intros (p & q & ->) (p' & q' & ->). exists (p' +:+ p), (q +:+ q').
  now rewrite !append_assoc.
Qed.

Lemma window_append (a before after : string) :
  window a (before +:+ a +:+ after).
Proof. now exists before, after. Qed.

Lemma concat_strings_window (before run after : list string) :
  window (concat_strings run) (concat_strings (before ++ run ++ after)).
Proof. rewrite !concat_strings_app. apply window_append. Qed.

(** A chunk made from a run of pieces fits and is a window of the
    pieces put together. *)
Lemma made_from_fits (pieces : list string) (doc : string) :
  made_from chunk_size pieces doc ->
  fits chunk_size doc /\ window doc (concat_strings pieces).
Proof.
  intros (before & run & after & -> & Hjoin & Hrun). split.
  - apply _join_docs_fits in Hjoin as [Hne Hlen]. split; [exact Hne | lia].
  - eapply window_trans; [|apply concat_strings_window].
    unfold Langchain._join_docs in Hjoin. rewrite join_empty_separator in Hjoin.
    destruct (truthy _); [|discriminate]. injection Hjoin as <-.
    apply strip_window.
Qed.

Lemma made_from_more (pieces more : list string) (doc : string) :
  made_from chunk_size pieces doc -> made_from chunk_size (pieces ++ more) doc.
Proof.
  intros (before & run & after & -> & Hjoin & Hrun).
  exists before, run, (after ++ more). now rewrite <- !app_assoc.
Qed.

Lemma merge_step_inv (seen : list string)
    (st : list string * list string * Z) (d : string) :
  len d < chunk_size ->
  merge_inv chunk_size seen st ->
  merge_inv chunk_size (seen ++ [d])
    (Langchain.merge_step chunk_size chunk_overlap "" st d).
Proof.
  destruct st as [[docs current_doc] total].
  intros Hd (Htotal & Hfit & [before Hseen] & Hdocs). subst total.
  assert (Hdocs' : Forall (made_from chunk_size (seen ++ [d])) docs).
  { eapply List.Forall_impl; [|exact Hdocs].
    intros doc. apply made_from_more. }
  unfold Langchain.merge_step. change (len "") with 0.
  rewrite no_separator.
  pose proof (len_nonneg d) as Hd0.
  destruct ((chunk_size <? total_len current_doc + len d + 0)
            && Py.nonempty current_doc) eqn:Hcond.
  - pose proof (pop_front_spec (len d) current_doc) as Hpop.
    destruct (Langchain.pop_front _ _ _ _ current_doc _) as [kept total].
    destruct Hpop as (-> & [popped Hpopped] & _ & Hnext).
    unfold merge_inv. rewrite total_len_snoc, no_separator.
    repeat split; [lia | lia | |].
    + exists (before ++ popped). subst seen current_doc.
      now rewrite <- !app_assoc.
    + destruct (Langchain._join_docs current_doc "") as [doc|] eqn:Hjoin;
        [|exact Hdocs'].
      apply Forall_app. split; [exact Hdocs'|]. constructor; [|constructor].
      exists before, current_doc, [d]. subst seen.
      rewrite <- app_assoc. auto.
  - unfold merge_inv. rewrite total_len_snoc, !no_separator.
    repeat split; [lia | | | exact Hdocs'].
    + apply andb_false_iff in Hcond as [Hcond | Hcond].
      * apply Z.ltb_ge in Hcond. lia.
      * destruct current_doc; [cbn; lia | discriminate].
    + exists before. subst seen. now rewrite <- app_assoc.
Qed.

Lemma merge_loop_inv (splits seen : list string)
    (st : list string * list string * Z) :
  Forall (fun piece => len piece < chunk_size) splits ->
  merge_inv chunk_size seen st ->
  merge_inv chunk_size (seen ++ splits)
    (fold_left (Langchain.merge_step chunk_size chunk_overlap "") splits st).
Proof.
  revert seen st.
  induction splits as [|d splits IH]; intros seen st Hsplits Hst.
  - now rewrite app_nil_r.
  - apply Forall_cons in Hsplits as [Hd Hsplits]. cbn [fold_left].
    replace (seen ++ d :: splits) with ((seen ++ [d]) ++ splits)
      by now rewrite <- app_assoc.
    apply IH; [exact Hsplits|]. now apply merge_step_inv.
Qed.

(** Merging pieces shorter than the chunk size: every chunk comes from
    a run of consecutive pieces within the chunk size. *)
Lemma _merge_splits_runs (splits : list string) :
  Forall (fun piece => len piece < chunk_size) splits ->
  Forall (made_from chunk_size splits)
    (Langchain._merge_splits chunk_size chunk_overlap splits "").
Proof.
  intros Hsplits. unfold Langchain._merge_splits.
  pose proof (merge_loop_inv splits [] ([], [], 0) Hsplits) as Hinv.
  rewrite app_nil_l in Hinv.
  destruct (fold_left _ splits _) as [[docs current_doc] total].
  destruct Hinv as (-> & Hfit & [before Hseen] & Hdocs).
  { repeat split; [lia | now exists [] | constructor]. }
  destruct (Langchain._join_docs current_doc "") as [doc|] eqn:Hjoin;
    [|exact Hdocs].
  apply Forall_app. split; [exact Hdocs|]. constructor; [|constructor].
  exists before, current_doc, []. rewrite app_nil_r. auto.
Qed.

(** ** Splitting on a separator loses no character *)

Lemma rev_app_append (a b c : string) :
  String.rev_app a b +:+ c = String.rev_app a (b +:+ c).
Proof.
  revert b. induction a as [|x a IH]; intros b; [reflexivity|].
  cbn [String.rev_app]. now rewrite IH.
Qed.

Lemma rev_cons (c : ascii) (acc : string) :
  String.rev (String c acc) = String.rev acc +:+ String c "".
Proof.
  unfold String.rev. cbn [String.rev_app]. now rewrite rev_app_append.
Qed.

Lemma prefix_split (a b : string) :
  String.prefix a b = true -> exists c, b = a +:+ c.
Proof.
  revert b. induction a as [|x a IH]; intros b H; [now exists b|].
  destruct b as [|y b]; [discriminate|]. cbn [String.prefix] in H.
  destruct (ascii_dec x y) as [->|]; [|discriminate].
  destruct (IH b H) as [c ->]. now exists c.
Qed.

Lemma split_literal_skip (sep u : string) (acc text : string) :
  Langchain.split_literal sep (String.length u) acc (u +:+ text)
  = Langchain.split_literal sep 0 acc text.
Proof.
  induction u as [|x u IH]; [reflexivity|].
  rewrite append_cons. cbn [String.length Langchain.split_literal]. exact IH.
Qed.

Lemma split_literal_nonempty (sep : string) (skip : nat) (acc text : string) :
  Langchain.split_literal sep skip acc text <> [].
Proof.
  revert skip acc. induction text as [|c text IH]; intros skip acc;
    [discriminate|].
  cbn [Langchain.split_literal]. destruct skip; [|apply IH].
  destruct (String.prefix sep (String c text)); [discriminate | apply IH].
Qed.

Lemma join_cons (sep a : string) (l : list string) :
  l <> [] -> join sep (a :: l) = a +:+ sep +:+ join sep l.
Proof. destruct l; [congruence | reflexivity]. Qed.

(** Joining the pieces with the separator gives the text back. *)
Lemma split_literal_join (sep : string) (n : nat) :
  truthy sep = true ->
  forall text acc,
    (String.length text <= n)%nat ->
    join sep (Langchain.split_literal sep 0 acc text)
    = String.rev acc +:+ text.
Proof.
  intros Hsep. induction n as [|n IH]; intros text acc Hlen.
  - destruct text; [|cbn in Hlen; lia]. cbn. now rewrite append_nil_r.
  - destruct text as [|c rest]; [cbn; now rewrite append_nil_r|].
    cbn [Langchain.split_literal].
    destruct (String.prefix sep (String c rest)) eqn:Hprefix.
    + destruct (prefix_split _ _ Hprefix) as [text' Htext].
      destruct sep as [|c' sep']; [discriminate|].
      rewrite append_cons in Htext. injection Htext as -> ->.
      cbn [String.length Nat.pred].
      rewrite split_literal_skip, join_cons by apply split_literal_nonempty.
      rewrite IH.
      * reflexivity.
      * cbn [String.length] in Hlen.
        assert (String.length (sep' +:+ text')
                = (String.length sep' + String.length text')%nat) as Hl.
        { clear. induction sep' as [|x u IHu]; [reflexivity|].
          rewrite append_cons. cbn [String.length]. now rewrite IHu. }
        lia.
    + rewrite IH by (cbn [String.length] in Hlen; lia).
      now rewrite rev_cons, append_assoc.
Qed.

Lemma concat_strings_keep_separator (sep first : string)
    (others : list string) :
  concat_strings (first :: map (String.append sep) others)
  = join sep (first :: others).
Proof.
  revert first. induction others as [|o others IH]; intros first.
  - cbn [map join]. now rewrite concat_strings_cons, append_nil_r.
  - rewrite join_cons by discriminate. rewrite <- IH.
    cbn [map]. now rewrite !concat_strings_cons, append_assoc.
Qed.

Lemma concat_strings_filter (l : list string) :
  concat_strings (List.filter truthy l) = concat_strings l.
Proof.
  induction l as [|a l IH]; [reflexivity|].
  cbn [List.filter]. destruct (truthy a) eqn:Ha.
  - now rewrite !concat_strings_cons, IH.
  - apply truthy_false in Ha. subst a.
    now rewrite concat_strings_cons, append_nil_l.
Qed.

(** The pieces of a text, put together again, are the text. *)
Lemma _split_text_with_regex_concat (text separator : string) :
  concat_strings (Langchain._split_text_with_regex text separator) = text.
Proof.
  unfold Langchain._split_text_with_regex. rewrite concat_strings_filter.
  destruct (truthy separator) eqn:Hsep; [|apply concat_strings_chars].
  pose proof (split_literal_join separator (String.length text) Hsep text ""
                (le_n _)) as Hjoin.
  destruct (Langchain.split_literal separator 0 "" text) as [|first others].
  - exact Hjoin.
  - now rewrite concat_strings_keep_separator.
Qed.

(** Split on the empty separator, every piece is one character. *)
Lemma _split_text_with_regex_chars (text : string) :
  Forall (fun piece => len piece < chunk_size)
    (Langchain._split_text_with_regex text "").
Proof.
  unfold Langchain._split_text_with_regex. cbn [truthy].
  apply List.Forall_forall. intros piece Hin.
  apply List.filter_In in Hin as [Hin _].
  pose proof (len_chars text piece Hin). lia.
Qed.

(** ** The loop over the pieces and the recursion on the separators *)

(** The recursion on the list of separators does what the library's
    loop does: pick the separator, split on it, and go on with the
    separators after it. *)
Lemma _split_text_choose (separators : list string) (text : string) :
  separators <> [] ->
  Langchain._split_text chunk_size chunk_overlap separators text
  = let '(separator, new_separators) :=
      Langchain.choose_separator separators text in
    Langchain.split_pieces chunk_size chunk_overlap separator
      (match new_separators with
       | [] => None
       | _ =>
           Some (Langchain._split_text chunk_size chunk_overlap
                   new_separators)
       end) text.
Proof.
  induction separators as [|_s rest IH]; [congruence|]. intros _.
  cbn [Langchain._split_text Langchain.choose_separator].
  destruct (negb (truthy _s)); [reflexivity|].
  destruct (contains _s text); [reflexivity|].
  destruct rest as [|s' rest']; [reflexivity|].
  now apply IH.
Qed.

Lemma window_more (c : string) (seen more : list string) :
  window c (concat_strings seen) -> window c (concat_strings (seen ++ more)).
Proof.
  intros H. eapply window_trans; [exact H|].
  rewrite concat_strings_app.
  exists "", (concat_strings more). reflexivity.
Qed.

Lemma window_last (seen : list string) (s : string) :
  window s (concat_strings (seen ++ [s])).
Proof.
  rewrite concat_strings_app, concat_strings_cons.
  exists (concat_strings seen), "". reflexivity.
Qed.

Lemma flush_inv (seen : list string) (st : list string * list string) :
  pieces_inv chunk_size seen st ->
  forall c,
    In c (Langchain.flush chunk_size chunk_overlap (fst st) (snd st)) ->
    fits chunk_size c /\ window c (concat_strings seen).
Proof.
  destruct st as [final_chunks _good_splits].
  intros ([before ->] & Hgood & Hfinal) c. cbn [fst snd].
  unfold Langchain.flush. destruct (Py.nonempty _good_splits); [|apply Hfinal].
  intros Hin. apply in_app_or in Hin as [Hin | Hin]; [now apply Hfinal|].
  pose proof (_merge_splits_runs _good_splits Hgood) as Hruns.
  rewrite List.Forall_forall in Hruns.
  destruct (made_from_fits _ _ (Hruns c Hin)) as [Hfits Hwindow].
  split; [exact Hfits|]. eapply window_trans; [exact Hwindow|].
  rewrite concat_strings_app.
  exists (concat_strings before), "". now rewrite append_nil_r.
Qed.

Lemma pieces_step_inv (recurse : option (string -> list string))
    (seen : list string) (st : list string * list string) (s : string) :
  (match recurse with
   | Some other_info =>
       forall c, In c (other_info s) -> fits chunk_size c /\ window c s
   | None => len s < chunk_size
   end) ->
  pieces_inv chunk_size seen st ->
  pieces_inv chunk_size (seen ++ [s])
    (Langchain.pieces_step chunk_size chunk_overlap recurse st s).
Proof.
  intros Hrec Hinv. pose proof (flush_inv seen st Hinv) as Hflush.
  destruct st as [final_chunks _good_splits].
  destruct Hinv as ([before Hseen] & Hgood & Hfinal).
  cbn [fst snd] in Hflush. unfold Langchain.pieces_step.
  destruct (len s <? chunk_size) eqn:Hlen.
  - apply Z.ltb_lt in Hlen. split; [|split].
    + exists before. subst seen. now rewrite <- app_assoc.
    + apply Forall_app. split; [exact Hgood|]. now repeat constructor.
    + intros c Hin. destruct (Hfinal c Hin) as [Hfits Hwindow].
      split; [exact Hfits | now apply window_more].
  - apply Z.ltb_ge in Hlen.
    destruct recurse as [other_info|]; [|lia].
    split; [|split].
    + exists (seen ++ [s]). now rewrite app_nil_r.
    + constructor.
    + intros c Hin. apply in_app_or in Hin as [Hin | Hin].
      * destruct (Hflush c Hin) as [Hfits Hwindow].
        split; [exact Hfits | now apply window_more].
      * destruct (Hrec c Hin) as [Hfits Hwindow].
        split; [exact Hfits|].
        eapply window_trans; [exact Hwindow | apply window_last].
Qed.

Lemma pieces_loop_inv (recurse : option (string -> list string))
    (pieces seen : list string) (st : list string * list string) :
  recurse_ok chunk_size recurse pieces ->
  pieces_inv chunk_size seen st ->
  pieces_inv chunk_size (seen ++ pieces)
    (fold_left (Langchain.pieces_step chunk_size chunk_overlap recurse)
       pieces st).
Proof.
  revert seen st. induction pieces as [|s pieces IH]; intros seen st Hrec Hst.
  - now rewrite app_nil_r.
  - cbn [fold_left].
    replace (seen ++ s :: pieces) with ((seen ++ [s]) ++ pieces)
      by now rewrite <- app_assoc.
    apply IH.
    + destruct recurse as [other_info|]; [exact Hrec|].
      cbn in Hrec |- *. now apply Forall_cons in Hrec as [_ Hrec].
    + apply pieces_step_inv; [|exact Hst].
      destruct recurse as [other_info|]; [intros c; apply Hrec|].
      cbn in Hrec. now apply Forall_cons in Hrec as [Hs _].
Qed.

(** Every chunk [split_pieces] returns fits and is a window of the
    text. *)
Lemma split_pieces_chunks (separator : string)
    (recurse : option (string -> list string)) (text : string) :
  recurse_ok chunk_size recurse
    (Langchain._split_text_with_regex text separator) ->
  forall c,
    In c (Langchain.split_pieces chunk_size chunk_overlap separator recurse
            text) ->
    fits chunk_size c /\ window c text.
Proof.
  intros Hrec c. unfold Langchain.split_pieces. cbv zeta.
  pose proof (pieces_loop_inv recurse
                (Langchain._split_text_with_regex text separator) []
                ([], []) Hrec) as Hinv.
  rewrite app_nil_l in Hinv.
  destruct (fold_left _ _ _) as [final_chunks _good_splits] eqn:Hloop.
  intros Hin.
  rewrite <- (_split_text_with_regex_concat text separator).
  apply (flush_inv _ (final_chunks, _good_splits)); [|exact Hin].
  apply Hinv. split; [now exists [] | split; [constructor | intros ? []]].
Qed.

(** The recursive splitter, when its last separator is the empty one:
    every chunk fits and is a window of the text. *)
Lemma _split_text_chunks (separators : list string) :
  last separators = Some "" ->
  forall text c,
    In c (Langchain._split_text chunk_size chunk_overlap separators text) ->
    fits chunk_size c /\ window c text.
Proof.
  induction separators as [|_s rest IH]; [discriminate|].
  intros Hlast text c. cbn [Langchain._split_text].
  destruct (truthy _s) eqn:Hs; cbn [negb].
  - assert (Hrest : rest <> [] /\ last rest = Some "").
    { destruct rest as [|s' rest']; [|split; [discriminate | exact Hlast]].
      cbn in Hlast. injection Hlast as ->. discriminate. }
    destruct Hrest as [Hne Hlast'].
    destruct (contains _s text).
    + apply split_pieces_chunks.
      destruct rest as [|s' rest']; [now destruct Hne|].
      cbn [recurse_ok]. intros s c'. now apply IH.
    + destruct rest as [|s' rest']; [now destruct Hne|]. now apply IH.
  - apply truthy_false in Hs. subst _s.
    apply split_pieces_chunks. cbn [recurse_ok].
    apply _split_text_with_regex_chars.
Qed.

End ChunkSize.

(* ================================================================== *)
(** ** Short texts and the shape of chunks *)
(* ================================================================== *)

Section ShortText.
Variables chunk_size chunk_overlap : Z.

(** While everything fits, the merging loop only collects the pieces. *)
Lemma merge_loop_small (splits docs current_doc : list string) :
  total_len (current_doc ++ splits) <= chunk_size ->
  fold_left (Langchain.merge_step chunk_size chunk_overlap "") splits
    (docs, current_doc, total_len current_doc)
  = (docs, current_doc ++ splits, total_len (current_doc ++ splits)).
Proof.
  revert current_doc. induction splits as [|d splits IH]; intros current_doc.
  - now rewrite app_nil_r.
  - intros Hsmall. cbn [fold_left].
    assert (Hstep : Langchain.merge_step chunk_size chunk_overlap ""
                      (docs, current_doc, total_len current_doc) d
                    = (docs, current_doc ++ [d],
                       total_len (current_doc ++ [d]))).
    { unfold Langchain.merge_step. change (len "") with 0.
      rewrite no_separator.
      rewrite total_len_app, total_len_cons in Hsmall.
      pose proof (total_len_nonneg splits).
      destruct (chunk_size <? total_len current_doc + len d + 0) eqn:Hcond;
        [apply Z.ltb_lt in Hcond; lia|].
      cbn [andb]. rewrite no_separator, total_len_snoc.
      f_equal. lia. }
    rewrite Hstep.
    replace (current_doc ++ d :: splits) with ((current_doc ++ [d]) ++ splits)
      in * by now rewrite <- app_assoc.
    now apply IH.
Qed.

Lemma _merge_splits_small (splits : list string) :
  total_len splits <= chunk_size ->
  Langchain._merge_splits chunk_size chunk_overlap splits ""
  = match Langchain._join_docs splits "" with
    | Some doc => [doc]
    | None => []
    end.
Proof.
  intros Hsmall. unfold Langchain._merge_splits.
  change 0 with (total_len []).
  rewrite (merge_loop_small splits [] []) by exact Hsmall.
  rewrite app_nil_l. now destruct (Langchain._join_docs splits "").
Qed.

(** Pieces shorter than the chunk size all join the run to merge. *)
Lemma pieces_loop_small (recurse : option (string -> list string))
    (pieces final_chunks _good_splits : list string) :
  Forall (fun piece => len piece < chunk_size) pieces ->
  fold_left (Langchain.pieces_step chunk_size chunk_overlap recurse) pieces
    (final_chunks, _good_splits)
  = (final_chunks, _good_splits ++ pieces).
Proof.
  revert _good_splits.
  induction pieces as [|s pieces IH]; intros _good_splits Hsmall.
  - now rewrite app_nil_r.
  - apply Forall_cons in Hsmall as [Hs Hsmall]. cbn [fold_left].
    unfold Langchain.pieces_step at 2.
    apply Z.ltb_lt in Hs. rewrite Hs.
    rewrite IH by exact Hsmall. now rewrite <- app_assoc.
Qed.

Lemma piece_le_total (piece : string) (pieces : list string) :
  In piece pieces -> len piece <= total_len pieces.
Proof.
  induction pieces as [|a pieces IH]; [intros []|].
  rewrite total_len_cons. pose proof (len_nonneg a).
  pose proof (total_len_nonneg pieces).
  intros [-> | Hin]; [lia|]. specialize (IH Hin). lia.
Qed.

(** Whatever the separator, a text shorter than the chunk size comes
    back as one stripped chunk, or as none when nothing is left. *)
Lemma split_pieces_short (separator : string)
    (recurse : option (string -> list string)) (text : string) :
  len text < chunk_size ->
  Langchain.split_pieces chunk_size chunk_overlap separator recurse text
  = single_chunk text.
Proof.
  intros Hshort. unfold Langchain.split_pieces. cbv zeta.
  pose proof (_split_text_with_regex_concat text separator) as Hconcat.
  set (pieces := Langchain._split_text_with_regex text separator) in *.
  assert (Htotal : total_len pieces = len text)
    by now rewrite <- len_concat_strings, Hconcat.
  rewrite pieces_loop_small.
  2:{ apply List.Forall_forall. intros piece Hin.
      apply piece_le_total in Hin. lia. }
  rewrite app_nil_l. unfold Langchain.flush, single_chunk.
  destruct pieces as [|piece pieces'] eqn:Hpieces.
  - cbn in Hconcat. subst text. reflexivity.
  - cbn [Py.nonempty app]. rewrite _merge_splits_small by lia.
    unfold Langchain._join_docs.
    rewrite join_empty_separator, Hconcat.
    now destruct (truthy (strip text)).
Qed.

Lemma _split_text_short (separators : list string) (text : string) :
  len text < chunk_size ->
  Langchain._split_text chunk_size chunk_overlap separators text
  = single_chunk text.
Proof.
  intros Hshort. induction separators as [|_s rest IH];
    cbn [Langchain._split_text]; [now apply split_pieces_short|].
  destruct (negb (truthy _s)); [now apply split_pieces_short|].
  destruct (contains _s text); [now apply split_pieces_short|].
  destruct rest; [now apply split_pieces_short | exact IH].
Qed.

End ShortText.

(** X11. A text of fewer than 10,000 characters is not split: it comes
    back as one chunk, the text without its leading and trailing white
    space, and as no chunk at all when it is empty or blank. *)
Theorem get_text_chunks_short (text : string) :
  len text < 10000 ->
  get_text_chunks text = single_chunk text
  /\ (strip text = "" -> get_text_chunks text = []).
Proof.
  intros Hshort.
  assert (H : get_text_chunks text = single_chunk text)
    by now apply _split_text_short.
  split; [exact H|]. intros Hblank. rewrite H. unfold single_chunk.
  now rewrite Hblank.
Qed.

Lemma get_text_chunks_short_witness :
  get_text_chunks (em_space +:+ " Annual report. " +:+ Langchain.nl)
  = ["Annual report."].
Proof.
  apply (get_text_chunks_short
           (em_space +:+ " Annual report. " +:+ Langchain.nl)).
  vm_compute. reflexivity.
Defined.

Section ChunkShape.
Variables chunk_size chunk_overlap : Z.
Hypothesis chunk_size_gt_1 : 1 < chunk_size.

(** A property every joined run of pieces has. *)
Variable shape : string -> Prop.
Hypothesis joined_shape :
  forall run doc, Langchain._join_docs run "" = Some doc -> shape doc.

Lemma merge_step_shape (st : list string * list string * Z) (d : string) :
  Forall shape (fst (fst st)) ->
  Forall shape
    (fst (fst (Langchain.merge_step chunk_size chunk_overlap "" st d))).
Proof.
  destruct st as [[docs current_doc] total]. cbn [fst]. intros Hdocs.
  unfold Langchain.merge_step.
  destruct ((chunk_size <? _) && Py.nonempty current_doc); [|exact Hdocs].
  destruct (Langchain.pop_front _ _ _ _ current_doc total) as [kept total'].
  cbn [fst].
  destruct (Langchain._join_docs current_doc "") as [doc|] eqn:Hjoin;
    [|exact Hdocs].
  apply Forall_app. split; [exact Hdocs|].
  constructor; [|constructor]. now apply (joined_shape current_doc).
Qed.

Lemma _merge_splits_shape (splits : list string) :
  Forall shape (Langchain._merge_splits chunk_size chunk_overlap splits "").
Proof.
  unfold Langchain._merge_splits.
  assert (Hloop : forall st,
             Forall shape (fst (fst st)) ->
             Forall shape
               (fst (fst (fold_left
                            (Langchain.merge_step chunk_size chunk_overlap "")
                            splits st)))).
  { induction splits as [|d splits IH]; intros st Hst; [exact Hst|].
    cbn [fold_left]. apply IH. now apply merge_step_shape. }
  specialize (Hloop ([], [], 0) (List.Forall_nil shape)).
  destruct (fold_left _ splits _) as [[docs current_doc] total].
  cbn [fst] in Hloop.
  destruct (Langchain._join_docs current_doc "") as [doc|] eqn:Hjoin;
    [|exact Hloop].
  apply Forall_app. split; [exact Hloop|].
  constructor; [|constructor]. now apply (joined_shape current_doc).
Qed.

Lemma flush_shape (final_chunks _good_splits : list string) :
  Forall shape final_chunks ->
  Forall shape
    (Langchain.flush chunk_size chunk_overlap final_chunks _good_splits).
Proof.
  intros Hfinal. unfold Langchain.flush.
  destruct (Py.nonempty _good_splits); [|exact Hfinal].
  apply Forall_app. split; [exact Hfinal | apply _merge_splits_shape].
Qed.

Lemma pieces_loop_shape (recurse : option (string -> list string))
    (pieces : list string) (st : list string * list string) :
  match recurse with
  | Some other_info => forall s, Forall shape (other_info s)
  | None => Forall (fun piece => len piece < chunk_size) pieces
  end ->
  Forall shape (fst st) ->
  Forall shape
    (fst (fold_left (Langchain.pieces_step chunk_size chunk_overlap recurse)
            pieces st)).
Proof.
  revert st. induction pieces as [|s pieces IH]; intros st Hrec Hst;
    [exact Hst|].
  cbn [fold_left]. apply IH.
  - destruct recurse as [other_info|]; [exact Hrec|].
    now apply Forall_cons in Hrec as [_ Hrec].
  - destruct st as [final_chunks _good_splits]. cbn [fst] in Hst.
    unfold Langchain.pieces_step.
    destruct (len s <? chunk_size) eqn:Hlen; [exact Hst|].
    apply Z.ltb_ge in Hlen.
    destruct recurse as [other_info|].
    + cbn [fst]. apply Forall_app. split; [now apply flush_shape|].
      apply Hrec.
    + apply Forall_cons in Hrec as [Hs _]. lia.
Qed.

Lemma split_pieces_shape (separator : string)
    (recurse : option (string -> list string)) (text : string) :
  match recurse with
  | Some other_info => forall s, Forall shape (other_info s)
  | None =>
      Forall (fun piece => len piece < chunk_size)
        (Langchain._split_text_with_regex text separator)
  end ->
  Forall shape
    (Langchain.split_pieces chunk_size chunk_overlap separator recurse text).
Proof.
  intros Hrec. unfold Langchain.split_pieces. cbv zeta.
  pose proof (pieces_loop_shape recurse
                (Langchain._split_text_with_regex text separator) ([], [])
                Hrec (List.Forall_nil shape)) as Hloop.
  destruct (fold_left _ _ _) as [final_chunks _good_splits].
  now apply flush_shape.
Qed.

Lemma _split_text_shape (separators : list string) :
  last separators = Some "" ->
  forall text,
    Forall shape
      (Langchain._split_text chunk_size chunk_overlap separators text).
Proof.
  induction separators as [|_s rest IH]; [discriminate|].
  intros Hlast text. cbn [Langchain._split_text].
  destruct (truthy _s) eqn:Hs; cbn [negb].
  - assert (Hrest : rest <> [] /\ last rest = Some "").
    { destruct rest as [|s' rest']; [|split; [discriminate | exact Hlast]].
      cbn in Hlast. injection Hlast as ->. discriminate. }
    destruct Hrest as [Hne Hlast'].
    destruct rest as [|s' rest']; [now destruct Hne|].
    destruct (contains _s text); [|now apply IH].
    apply split_pieces_shape. intros s. now apply IH.
  - apply truthy_false in Hs. subst _s.
    apply split_pieces_shape.
    now apply _split_text_with_regex_chars.
Qed.

End ChunkShape.

(** X12. No chunk starts or ends with white space: stripping a chunk
    returned by [get_text_chunks] changes nothing. *)
Theorem get_text_chunks_stripped (text c : string) :
  In c (get_text_chunks text) -> strip c = c.
Proof.
  intros Hin.
  pose proof (_split_text_shape 10000 1000 ltac:(lia)
                (fun c => strip c = c)) as Hshape.
  assert (Hall : Forall (fun c => strip c = c) (get_text_chunks text)).
  { apply Hshape; [|reflexivity].
    intros run doc. unfold Langchain._join_docs.
    destruct (truthy _); [|discriminate]. intros [= <-]. apply strip_idem. }
  rewrite List.Forall_forall in Hall. now apply Hall.
Qed.

Lemma get_text_chunks_stripped_witness :
  strip "Annual report." = "Annual report.".
Proof.
  apply (get_text_chunks_stripped ("  Annual report. " +:+ Langchain.nl)).
  vm_compute. left. reflexivity.
Defined.

Section SlidingWindows.
Variables chunk_size chunk_overlap : Z.
Hypothesis chunk_size_gt_1 : 1 < chunk_size.
Hypothesis chunk_overlap_ok : 0 <= chunk_overlap < chunk_size.

Lemma total_len_proper (cs : list string) :
  forallb proper cs = true -> total_len cs = Z.of_nat (length cs).
Proof.
  induction cs as [|c cs IH]; [reflexivity|]. cbn [forallb]. intros H.
  apply andb_prop in H as [Hc Hcs].
  rewrite total_len_cons, (IH Hcs), (len_proper c Hc). cbn [length]. lia.
Qed.

Lemma plain_app (cs1 cs2 : list string) :
  forallb plain (cs1 ++ cs2) = forallb plain cs1 && forallb plain cs2.
Proof. apply forallb_app. Qed.

Lemma plain_drop (n : nat) (cs : list string) :
  forallb plain cs = true -> forallb plain (drop n cs) = true.
Proof.
  intros H. rewrite <- (take_drop n cs), plain_app in H.
  now apply andb_prop in H as [_ H].
Qed.

Lemma truthy_concat_strings (c : string) (cs : list string) :
  proper c = true -> truthy (concat_strings (c :: cs)) = true.
Proof.
  destruct c as [|b tail]; [discriminate|]. intros _.
  now rewrite concat_strings_cons, append_cons.
Qed.

(** A run of characters without white space is joined as it is. *)
Lemma _join_docs_plain (cs : list string) :
  forallb plain cs = true ->
  Langchain._join_docs cs ""
  = match cs with
    | [] => None
    | _ :: _ => Some (concat_strings cs)
    end.
Proof.
  intros H. unfold Langchain._join_docs.
  rewrite join_empty_separator, (strip_plain cs H).
  destruct cs as [|c cs]; [reflexivity|].
  rewrite truthy_concat_strings; [reflexivity|].
  cbn [forallb] in H. apply andb_prop in H as [H _].
  now apply andb_prop in H as [H _].
Qed.

(** Popping one-character pieces leaves the last [chunk_overlap] of
    them. *)
Lemma pop_front_proper (cs : list string) :
  forallb proper cs = true ->
  Z.of_nat (length cs) <= chunk_size ->
  Langchain.pop_front chunk_size chunk_overlap 0 1 cs (Z.of_nat (length cs))
  = (drop (length cs - Z.to_nat chunk_overlap) cs,
     Z.of_nat (length (drop (length cs - Z.to_nat chunk_overlap) cs))).
Proof.
  induction cs as [|c cs IH]; [reflexivity|]. intros Hproper Hlen.
  cbn [forallb] in Hproper. apply andb_prop in Hproper as [Hc Hcs].
  cbn [Langchain.pop_front]. cbn [length] in *.
  destruct (chunk_overlap <? Z.of_nat (S (length cs))) eqn:Hover.
  - apply Z.ltb_lt in Hover. cbn [orb].
    rewrite no_separator, (len_proper c Hc).
    replace (Z.of_nat (S (length cs)) - (1 + 0))
      with (Z.of_nat (length cs)) by lia.
    rewrite (IH Hcs) by lia.
    replace (S (length cs) - Z.to_nat chunk_overlap)%nat
      with (S (length cs - Z.to_nat chunk_overlap)) by lia.
    reflexivity.
  - apply Z.ltb_ge in Hover. cbn [orb].
    replace (chunk_size <? Z.of_nat (S (length cs)) + 1 + 0) with false
      by (symmetry; apply Z.ltb_ge; lia).
    cbn [andb].
    replace (S (length cs) - Z.to_nat chunk_overlap)%nat with 0%nat by lia.
    reflexivity.
Qed.

Lemma sliding_windows_nil {A} (fuel size stride : nat) :
  sliding_windows fuel size stride (@nil A) = [].
Proof. now destruct fuel. Qed.

Lemma sliding_windows_short {A} (fuel size stride : nat) (cs : list A) :
  cs <> [] -> (length cs <= size)%nat ->
  sliding_windows (S fuel) size stride cs = [cs].
Proof.
  intros Hne Hlen. destruct cs as [|c cs]; [congruence|].
  cbn [sliding_windows]. apply Nat.leb_le in Hlen. now rewrite Hlen.
Qed.

Lemma sliding_windows_long {A} (fuel size stride : nat) (cs : list A) :
  (size < length cs)%nat ->
  sliding_windows (S fuel) size stride cs
  = take size cs :: sliding_windows fuel size stride (drop stride cs).
Proof.
  intros Hlen. destruct cs as [|c cs]; [cbn in Hlen; lia|].
  cbn [sliding_windows]. apply Nat.leb_gt in Hlen. now rewrite Hlen.
Qed.

(** The merging loop on characters without white space cuts sliding
    windows: [cd] holds the characters of the window being filled,
    [rest] the characters to come. *)
Lemma merge_plain (rest : list string) :
  forall (cd : list string) (docs : list string) (fuel : nat),
    forallb plain (cd ++ rest) = true ->
    Z.of_nat (length cd) <= chunk_size ->
    (length (cd ++ rest) <= fuel)%nat ->
    (let '(docs', current_doc, _) :=
       fold_left (Langchain.merge_step chunk_size chunk_overlap "")
         rest (docs, cd, Z.of_nat (length cd)) in
     match Langchain._join_docs current_doc "" with
     | Some doc => docs' ++ [doc]
     | None => docs'
     end)
    = docs ++ map concat_strings
                (sliding_windows fuel (Z.to_nat chunk_size)
                   (Z.to_nat (chunk_size - chunk_overlap)) (cd ++ rest)).
Proof.
  induction rest as [|d rest IH]; intros cd docs fuel Hws Hcd Hfuel.
  - rewrite app_nil_r in *. cbn [fold_left].
    rewrite (_join_docs_plain cd Hws).
    destruct cd as [|c cd]; [now rewrite sliding_windows_nil, app_nil_r|].
    destruct fuel as [|fuel]; [cbn in Hfuel; lia|].
    rewrite sliding_windows_short by (congruence || lia). reflexivity.
  - cbn [fold_left].
    rewrite plain_app in Hws. apply andb_prop in Hws as [Hwcd Hwr].
    assert (Hwd : forallb plain [d] = true /\ forallb plain rest = true).
    { change (d :: rest) with ([d] ++ rest) in Hwr.
      rewrite plain_app in Hwr. now apply andb_prop in Hwr. }
    destruct Hwd as [Hwd Hwrest].
    assert (Hd : len d = 1).
    { apply len_proper. cbn [forallb] in Hwd.
      apply andb_prop in Hwd as [Hwd _]. now apply andb_prop in Hwd as [Hwd _]. }
    rewrite length_app in Hfuel. cbn [length] in Hfuel.
    unfold Langchain.merge_step at 2. change (len "") with 0.
    rewrite no_separator, Hd.
    destruct (Z.eq_dec (Z.of_nat (length cd)) chunk_size) as [Hfull|Hroom].
    + (* the window is full: emit it and keep its last characters *)
      assert (Hne : cd <> []) by (intros ->; cbn in Hfull; lia).
      replace (chunk_size <? Z.of_nat (length cd) + 1 + 0) with true
        by (symmetry; apply Z.ltb_lt; lia).
      replace (Py.nonempty cd) with true by now destruct cd.
      assert (Hjoin : Langchain._join_docs cd "" = Some (concat_strings cd)).
      { rewrite (_join_docs_plain cd Hwcd). now destruct cd. }
      cbn [andb]. rewrite Hjoin.
      rewrite (pop_front_proper cd) by (lia || now apply plain_proper).
      rewrite no_separator.
      set (kept := drop (length cd - Z.to_nat chunk_overlap) cd).
      assert (Hkept : length kept = Z.to_nat chunk_overlap)
        by (subst kept; rewrite length_drop; lia).
      replace (Z.of_nat (length kept) + 1 + 0)
        with (Z.of_nat (length (kept ++ [d])))
        by (rewrite length_app; cbn [length]; lia).
      destruct fuel as [|fuel]; [lia|].
      rewrite (IH (kept ++ [d]) (docs ++ [concat_strings cd]) fuel).
      * rewrite sliding_windows_long by (rewrite length_app; cbn [length]; lia).
        rewrite take_app_length' by lia.
        rewrite drop_app_le by lia.
        replace (Z.to_nat (chunk_size - chunk_overlap))
          with (length cd - Z.to_nat chunk_overlap)%nat by lia.
        fold kept. cbn [map]. rewrite <- !app_assoc. reflexivity.
      * rewrite !plain_app, Hwd, Hwrest.
        subst kept. now rewrite plain_drop.
      * rewrite length_app. cbn [length]. lia.
      * rewrite !length_app. cbn [length]. lia.
    + (* there is room: the character joins the window *)
      replace (chunk_size <? Z.of_nat (length cd) + 1 + 0) with false
        by (symmetry; apply Z.ltb_ge; lia).
      cbn [andb]. rewrite no_separator.
      replace (Z.of_nat (length cd) + 1 + 0)
        with (Z.of_nat (length (cd ++ [d])))
        by (rewrite length_app; cbn [length]; lia).
      rewrite (IH (cd ++ [d]) docs fuel).
      * now rewrite <- app_assoc.
      * rewrite !plain_app, Hwcd, Hwd, Hwrest. reflexivity.
      * rewrite length_app. cbn [length]. lia.
      * rewrite !length_app. cbn [length]. lia.
Qed.

Lemma _merge_splits_plain (cs : list string) :
  forallb plain cs = true ->
  Langchain._merge_splits chunk_size chunk_overlap cs ""
  = map concat_strings
      (sliding_windows (length cs) (Z.to_nat chunk_size)
         (Z.to_nat (chunk_size - chunk_overlap)) cs).
Proof.
  intros Hws. unfold Langchain._merge_splits.
  pose proof (merge_plain cs [] [] (length cs) Hws ltac:(cbn; lia)
                (le_n _)) as Hmerge.
  cbn [length app] in Hmerge. change (Z.of_nat 0) with 0 in Hmerge.
  destruct (fold_left _ cs _) as [[docs current_doc] total].
  exact Hmerge.
Qed.

Lemma filter_proper (cs : list string) :
  forallb proper cs = true -> List.filter truthy cs = cs.
Proof.
  induction cs as [|c cs IH]; [reflexivity|]. cbn [forallb]. intros H.
  apply andb_prop in H as [Hc Hcs]. cbn [List.filter].
  destruct c as [|b tail]; [discriminate|]. cbn [truthy].
  now rewrite (IH Hcs).
Qed.

(** ** Separators the text does not contain *)

Lemma list_ascii_of_string_app (a b : string) :
  list_ascii_of_string (a +:+ b)
  = list_ascii_of_string a ++ list_ascii_of_string b.
Proof.
  induction a as [|x a IH]; [reflexivity|].
  rewrite append_cons. cbn [list_ascii_of_string]. now rewrite IH.
Qed.

Lemma contains_absent (c : ascii) (separator text : string) :
  ~ In c (list_ascii_of_string text) ->
  contains (String c separator) text = false.
Proof.
  induction text as [|x text IH]; [reflexivity|].
  cbn [list_ascii_of_string]. intros Hin.
  cbn [contains String.prefix].
  destruct (ascii_dec c x) as [->|_]; [destruct Hin; now left|].
  cbn [orb]. apply IH. intros H. apply Hin. now right.
Qed.

(** A character of one byte is decoded from that byte alone. *)
Lemma isspace_ascii (c : ascii) (tail : string) :
  (N_of_ascii c < 128)%N -> isspace (String c tail) = isspace (String c "").
Proof.
  intros Hc. unfold isspace, code_point.
  apply N.ltb_lt in Hc. now rewrite Hc.
Qed.

(** A white space character of one byte is no byte of a character that
    is not white space. *)
Lemma plain_bytes (c : ascii) (ch : string) :
  (N_of_ascii c < 128)%N ->
  isspace (String c "") = true ->
  plain ch = true ->
  ~ In c (list_ascii_of_string ch).
Proof.
  intros Hc Hspace Hplain. apply andb_prop in Hplain as [Hproper Hns].
  destruct ch as [|b tail]; [discriminate|]. cbn [proper] in Hproper.
  apply andb_prop in Hproper as [_ Htail]. apply negb_true_iff in Hns.
  cbn [list_ascii_of_string]. intros [-> | Hin].
  - rewrite isspace_ascii in Hns by exact Hc. congruence.
  - rewrite forallb_forall in Htail. specialize (Htail c Hin).
    unfold is_continuation in Htail. cbv zeta in Htail.
    apply andb_prop in Htail as [Hlow _]. apply N.leb_le in Hlow. lia.
Qed.

(** A separator that starts with a white space character of one byte
    does not occur in a text without white space. *)
Lemma contains_white_space (c : ascii) (separator : string)
    (cs : list string) :
  (N_of_ascii c < 128)%N ->
  isspace (String c "") = true ->
  forallb plain cs = true ->
  contains (String c separator) (concat_strings cs) = false.
Proof.
  intros Hc Hspace Hplain. apply contains_absent.
  induction cs as [|ch cs IH]; [intros []|].
  cbn [forallb] in Hplain. apply andb_prop in Hplain as [Hch Hcs].
  rewrite concat_strings_cons, list_ascii_of_string_app.
  intros Hin. apply in_app_or in Hin as [Hin | Hin].
  - now apply (plain_bytes c ch Hc Hspace Hch).
  - now apply IH.
Qed.

(** On the empty separator the pieces are the characters, and the
    chunks are the sliding windows over them. *)
Lemma split_pieces_plain (cs : list string) :
  forallb plain cs = true ->
  Langchain.split_pieces chunk_size chunk_overlap "" None
    (concat_strings cs)
  = map concat_strings
      (sliding_windows (length cs) (Z.to_nat chunk_size)
         (Z.to_nat (chunk_size - chunk_overlap)) cs).
Proof.
  intros Hws. unfold Langchain.split_pieces. cbv zeta.
  rewrite pieces_loop_small
    by now apply _split_text_with_regex_chars.
  unfold Langchain._split_text_with_regex. cbn [truthy].
  rewrite (chars_proper cs (plain_proper cs Hws)).
  rewrite (filter_proper cs (plain_proper cs Hws)).
  rewrite app_nil_l. unfold Langchain.flush.
  destruct cs as [|c cs]; [reflexivity|].
  cbn [Py.nonempty app].
  now apply (_merge_splits_plain (c :: cs)).
Qed.

(** The recursive splitter with the default separators, on a text
    without white space. *)
Lemma split_text_plain (cs : list string) :
  forallb plain cs = true ->
  Langchain.split_text
    (Langchain.RecursiveCharacterTextSplitter chunk_size chunk_overlap)
    (concat_strings cs)
  = map concat_strings
      (sliding_windows (length cs) (Z.to_nat chunk_size)
         (Z.to_nat (chunk_size - chunk_overlap)) cs).
Proof.
  intros Hws. unfold Langchain.split_text.
  cbn [Langchain._chunk_size Langchain._chunk_overlap Langchain._separators
         Langchain.RecursiveCharacterTextSplitter].
  change (Langchain.nl +:+ Langchain.nl)
    with (String "010" (String "010" "")).
  change Langchain.nl with (String "010" "").
  cbn [Langchain._split_text truthy negb].
  rewrite !contains_white_space
    by (exact Hws || reflexivity || (vm_compute; reflexivity)).
  now apply split_pieces_plain.
Qed.

End SlidingWindows.

(* ================================================================== *)
(** ** Chunking *)
(* ================================================================== *)

(** C1, as amended.  [get_text_chunks] cuts the text with chunk size
    10,000 and chunk overlap 1,000.  For every text, every chunk is a
    non-empty contiguous window of the text of at most 10,000
    characters.  On a text without white space the two constants are
    exact: the chunks are the windows of 10,000 characters taken every
    9,000 characters, so that consecutive chunks share exactly 1,000
    characters, the last window being shorter when the text runs out. *)
Theorem get_text_chunks_windows (text : string) :
  (forall c, In c (get_text_chunks text) ->
     c <> "" /\ len c <= 10000 /\ window c text)
  /\ (forallb plain (chars text) = true ->
      get_text_chunks text
      = map concat_strings
          (sliding_windows (length (chars text)) (Z.to_nat 10000)
             (Z.to_nat 9000) (chars text))).
Proof.
  split.
  - intros c Hin.
    destruct (_split_text_chunks 10000 1000 ltac:(lia)
                (Langchain._separators
                   (Langchain.RecursiveCharacterTextSplitter 10000 1000))
                eq_refl text c Hin) as [[Hne Hlen] Hwindow].
    auto.
  - intros Hplain. unfold get_text_chunks. cbv zeta.
    rewrite <- (concat_strings_chars text) at 1.
    now rewrite (split_text_plain 10000 1000) by (lia || exact Hplain).
Qed.

Lemma get_text_chunks_windows_witness :
  get_text_chunks long_word
  = map concat_strings
      (sliding_windows (length (chars long_word)) (Z.to_nat 10000)
         (Z.to_nat 9000) (chars long_word)).
Proof.
  apply (proj2 (get_text_chunks_windows long_word)).
  vm_compute. reflexivity.
Defined.

(** C1, the claim as stated fails.  A text of three paragraphs of 6,000
    letters each comes back as three chunks of 6,000 characters that
    share nothing: the chunks are not windows of exactly 10,000
    characters, and they are not the windows of 10,000 characters taken
    every 9,000 characters with a shorter last one either. *)
Lemma get_text_chunks_paragraphs :
  get_text_chunks three_paragraphs
  = [repeat_char (Z.to_nat 6000) "a"; repeat_char (Z.to_nat 6000) "b";
     repeat_char (Z.to_nat 6000) "c"]
  /\ ~ fixed_windows 10000 1000 three_paragraphs
        (get_text_chunks three_paragraphs)
  /\ get_text_chunks three_paragraphs
     <> map concat_strings
          (sliding_windows (length (chars three_paragraphs))
             (Z.to_nat 10000) (Z.to_nat 9000) (chars three_paragraphs)).
Proof.
  assert (Hchunks : get_text_chunks three_paragraphs
                    = [repeat_char (Z.to_nat 6000) "a";
                       repeat_char (Z.to_nat 6000) "b";
                       repeat_char (Z.to_nat 6000) "c"])
    by (vm_compute; reflexivity).
  split; [exact Hchunks|]. rewrite Hchunks. split.
  - intros Hfixed.
    destruct (Hfixed 0%nat (repeat_char (Z.to_nat 6000) "a") eq_refl)
      as [Hlen _].
    vm_compute in Hlen. discriminate Hlen.
  - intros Heq. apply (f_equal (@length string)) in Heq.
    vm_compute in Heq. discriminate Heq.
Qed.

(** X13. A text without white space of more than 10,000 and at most
    19,000 characters is cut in two chunks: its first 10,000 characters,
    and its characters from the 9,001st on.  The second chunk starts
    with the last 1,000 characters of the first. *)
Theorem get_text_chunks_two_windows (text : string) :
  forallb plain (chars text) = true ->
  (Z.to_nat 10000 < length (chars text) <= Z.to_nat 19000)%nat ->
  get_text_chunks text
  = [concat_strings (take (Z.to_nat 10000) (chars text));
     concat_strings (drop (Z.to_nat 9000) (chars text))].
Proof.
  intros Hplain Hlen. unfold get_text_chunks. cbv zeta.
  rewrite <- (concat_strings_chars text) at 1.
  rewrite (split_text_plain 10000 1000) by (lia || exact Hplain).
  change (10000 - 1000) with 9000.
  destruct (length (chars text)) as [|[|fuel]] eqn:Hfuel; [lia | lia |].
  rewrite sliding_windows_long by lia.
  rewrite sliding_windows_short; [reflexivity | | rewrite length_drop; lia].
  intros Hnil. apply (f_equal (@length string)) in Hnil.
  rewrite length_drop in Hnil. cbn [length] in Hnil. lia.
Qed.

Lemma get_text_chunks_two_windows_witness :
  get_text_chunks long_word
  = [concat_strings (take (Z.to_nat 10000) (chars long_word));
     concat_strings (drop (Z.to_nat 9000) (chars long_word))].
Proof.
  apply (get_text_chunks_two_windows long_word); vm_compute.
  - reflexivity.
  - split; apply Nat.leb_le; vm_compute; reflexivity.
Defined.
